(** * SEGB container generator (generate_test_files.py): a shallow embedding

    The script builds a version 1 and a version 2 SEGB file from a list of
    (text, date) entries.  We embed it as two functions of that list (and,
    for version 2, of the clock reading used for [creation_timestamp]).
    Every Python operation that can raise ([struct.pack] out of range,
    [str.encode] of a lone surrogate, float conversion overflow) makes the
    embedded function return [None]. *)

From Stdlib Require Import ZArith List Lia Bool.
From Stdlib Require Import Strings.Byte.
From Stdlib Require Strings.String Strings.Ascii.
Import ListNotations.
Open Scope Z_scope.

Notation "x <- a ;; b" :=
  (match a with Some x => b | None => None end)
  (at level 60, right associativity).

(** ** Bytes *)

Definition bytes := list byte.

Definition b_of_Z (z : Z) : byte :=
  match Byte.of_N (Z.to_N (z mod 256)) with Some b => b | None => x00 end.

Definition Z_of_b (b : byte) : Z := Z.of_N (Byte.to_N b).

Definition zeros (n : nat) : bytes := repeat x00 n.

(** Python slice assignment [buf[lo:hi] = src]. *)
Definition slice_assign (buf : bytes) (lo hi : nat) (src : bytes) : bytes :=
  firstn lo buf ++ src ++ skipn hi buf.

(** Python slice [buf[off:off+len]]. *)
Definition slice (buf : bytes) (off len : nat) : bytes :=
  firstn len (skipn off buf).

(** [n] little-endian bytes of [x] (two's complement for negative [x]). *)
Fixpoint le_bytes (n : nat) (x : Z) : bytes :=
  match n with
  | O => []
  | S n' => b_of_Z x :: le_bytes n' (Z.shiftr x 8)
  end.

(** Unsigned little-endian value of a byte string. *)
Fixpoint le_value (l : bytes) : Z :=
  match l with
  | [] => 0
  | b :: l' => Z_of_b b + 256 * le_value l'
  end.

(** [struct.pack('<I', x)]: raises unless [0 <= x < 2^32]. *)
Definition pack_I (x : Z) : option bytes :=
  if (0 <=? x) && (x <? 2 ^ 32) then Some (le_bytes 4 x) else None.

(** [struct.pack('<i', x)]: raises unless [-2^31 <= x < 2^31]. *)
Definition pack_i (x : Z) : option bytes :=
  if (- 2 ^ 31 <=? x) && (x <? 2 ^ 31) then Some (le_bytes 4 x) else None.

(** A Python float, as its IEEE-754 binary64 bit pattern. *)
Definition f64 := Z.

(** [struct.pack('<d', x)]: the 8 bytes of the bit pattern, little-endian. *)
Definition pack_d (x : f64) : bytes := le_bytes 8 x.

(** ** CRC32 ([binascii.crc32], reflected polynomial 0xEDB88320) *)

Fixpoint crc_shift (k : nat) (c : Z) : Z :=
  match k with
  | O => c
  | S k' =>
      crc_shift k'
        (if Z.odd c then Z.lxor (Z.shiftr c 1) 0xEDB88320 else Z.shiftr c 1)
  end.

Definition crc_update (c : Z) (b : byte) : Z :=
  crc_shift 8 (Z.lxor c (Z_of_b b)).

Definition crc32 (data : bytes) : Z :=
  Z.lxor (fold_left crc_update data 0xFFFFFFFF) 0xFFFFFFFF.

(** ** [str.encode('utf-8')] on a string given as its code points *)

Definition utf8_char (c : Z) : option bytes :=
  if c <? 0 then None
  else if c <? 0x80 then Some [b_of_Z c]
  else if c <? 0x800 then
    Some [b_of_Z (Z.lor 0xC0 (Z.shiftr c 6));
          b_of_Z (Z.lor 0x80 (Z.land c 0x3F))]
  else if c <? 0x10000 then
    if (0xD800 <=? c) && (c <=? 0xDFFF) then None (* lone surrogate *)
    else Some [b_of_Z (Z.lor 0xE0 (Z.shiftr c 12));
               b_of_Z (Z.lor 0x80 (Z.land (Z.shiftr c 6) 0x3F));
               b_of_Z (Z.lor 0x80 (Z.land c 0x3F))]
  else if c <? 0x110000 then
    Some [b_of_Z (Z.lor 0xF0 (Z.shiftr c 18));
          b_of_Z (Z.lor 0x80 (Z.land (Z.shiftr c 12) 0x3F));
          b_of_Z (Z.lor 0x80 (Z.land (Z.shiftr c 6) 0x3F));
          b_of_Z (Z.lor 0x80 (Z.land c 0x3F))]
  else None.

Fixpoint utf8_encode (s : list Z) : option bytes :=
  match s with
  | [] => Some []
  | c :: s' => b <- utf8_char c ;; r <- utf8_encode s' ;; Some (b ++ r)
  end.

(** ** Python floats from integer true division

    [n / d] for Python ints is correctly rounded (to nearest, ties to even);
    it raises [OverflowError] when the result is too large for a float. *)

Definition f64_of_ratio (n d : Z) : option f64 :=
  if n =? 0 then Some 0
  else
    let sgn := if n <? 0 then 2 ^ 63 else 0 in
    let a := Z.abs n in
    let num e := if e <? 0 then a * 2 ^ (- e) else a in
    let den e := if e <? 0 then d else d * 2 ^ e in
    let e0 := Z.log2 a - Z.log2 d - 53 in
    let e1 := if 2 ^ 53 <=? num e0 / den e0 then e0 + 1 else e0 in
    let e := Z.max e1 (-1074) in
    let q := num e / den e in
    let r := num e mod den e in
    let q' := if (den e <? 2 * r) || ((2 * r =? den e) && Z.odd q)
              then q + 1 else q in
    let '(m, e') := if q' =? 2 ^ 53 then (2 ^ 52, e + 1) else (q', e) in
    if m <? 2 ^ 52 then Some (sgn + m)
    else if 2047 <=? e' + 1075 then None
    else Some (sgn + (e' + 1075) * 2 ^ 52 + (m - 2 ^ 52)).

(** The integer quotient [num e / den e] that [f64_of_ratio] computes at
    exponent [e], for the magnitude [a] and the divisor [d]. *)
Definition ratio_quot (a d e : Z) : Z :=
  (if e <? 0 then a * 2 ^ (- e) else a) / (if e <? 0 then d else d * 2 ^ e).

(** ** [datetime] (aware, UTC) and [get_timestamp] *)

Record datetime := mk_datetime {
  year : Z; month : Z; day : Z;
  hour : Z; minute : Z; second : Z; microsecond : Z }.

Definition is_leap (y : Z) : bool :=
  (y mod 4 =? 0) && (negb (y mod 100 =? 0) || (y mod 400 =? 0)).

Definition days_before_year (y : Z) : Z :=
  let y1 := y - 1 in y1 * 365 + y1 / 4 - y1 / 100 + y1 / 400.

Definition DAYS_BEFORE_MONTH : list Z :=
  [-1; 0; 31; 59; 90; 120; 151; 181; 212; 243; 273; 304; 334].

Definition days_before_month (y m : Z) : Z :=
  nth (Z.to_nat m) DAYS_BEFORE_MONTH 0 + (if (2 <? m) && is_leap y then 1 else 0).

Definition ymd2ord (y m d : Z) : Z :=
  days_before_year y + days_before_month y m + d.

(** Microseconds since 0001-01-01T00:00:00 UTC. *)
Definition to_microseconds (dt : datetime) : Z :=
  ((ymd2ord (year dt) (month dt) (day dt) * 86400
    + hour dt * 3600 + minute dt * 60 + second dt) * 1000000)
  + microsecond dt.

Definition BASE_DATE : datetime := mk_datetime 2001 1 1 0 0 0 0.

(** [(dt - BASE_DATE).total_seconds()]: the exact microsecond difference,
    divided by [10**6] with Python's true division. *)
Definition get_timestamp (dt : datetime) : option f64 :=
  f64_of_ratio (to_microseconds dt - to_microseconds BASE_DATE) 1000000.

(** The field ranges the [datetime] constructor accepts: [MINYEAR] = 1 to
    [MAXYEAR] = 9999, months 1 to 12, hours, minutes, seconds and
    microseconds in their ranges; the day is only bounded by 31 here, which
    admits every valid date and some invalid ones. *)
Definition in_datetime_range (dt : datetime) : bool :=
  (1 <=? year dt) && (year dt <=? 9999) && (1 <=? month dt) && (month dt <=? 12)
  && (1 <=? day dt) && (day dt <=? 31) && (0 <=? hour dt) && (hour dt <=? 23)
  && (0 <=? minute dt) && (minute dt <=? 59) && (0 <=? second dt) && (second dt <=? 59)
  && (0 <=? microsecond dt) && (microsecond dt <=? 999999).

(** ** Input entries: [{'text': ..., 'date': ...}] *)

Record entry := mk_entry { text : list Z; date : datetime }.

Definition SEGB : bytes := [x53; x45; x47; x42].

Definition WRITTEN : Z := 1.

(** ** Version 1 *)

(** One loop iteration of the version 1 generator: the 32-byte entry header,
    the data and the padding to 8 bytes. *)
Definition entry_v1 (entry_data : entry) : option bytes :=
  timestamp <- get_timestamp (date entry_data) ;;
  data_bytes <- utf8_encode (text entry_data) ;;
  let data_length := Z.of_nat (length data_bytes) in
  f_length <- pack_I data_length ;;
  f_state <- pack_i WRITTEN ;;
  let crc := Z.land (crc32 data_bytes) 0xffffffff in
  f_crc <- pack_I crc ;;
  let h := zeros 0x20 in
  let h := slice_assign h 0x00 0x04 f_length in
  let h := slice_assign h 0x04 0x08 f_state in
  let h := slice_assign h 0x08 0x10 (pack_d timestamp) in
  let h := slice_assign h 0x10 0x18 (pack_d timestamp) in
  let h := slice_assign h 0x18 0x1C f_crc in
  let h := slice_assign h 0x1C 0x20 (zeros 4) in
  let entry := h ++ data_bytes in
  let padding_needed := (8 - Z.of_nat (length entry) mod 8) mod 8 in
  Some (entry ++ zeros (Z.to_nat padding_needed)).

Fixpoint entries_v1_loop (eds : list entry) (entries_v1 : list bytes)
    (current_offset_v1 : Z) : option (list bytes * Z) :=
  match eds with
  | [] => Some (entries_v1, current_offset_v1)
  | entry_data :: rest =>
      entry <- entry_v1 entry_data ;;
      entries_v1_loop rest (entries_v1 ++ [entry])
        (current_offset_v1 + Z.of_nat (length entry))
  end.

Definition encode_v1 (entries_data : list entry) : option bytes :=
  let header_v1 := slice_assign (zeros 0x38) 0x34 0x38 SEGB in
  r <- entries_v1_loop entries_data [] 0x38 ;;
  let '(entries_v1, current_offset_v1) := r in
  f_end <- pack_I current_offset_v1 ;;
  let header_v1 := slice_assign header_v1 0x00 0x04 f_end in
  Some (header_v1 ++ concat entries_v1).

(** ** Version 2 *)

Record trailer_info := mk_info { t_offset : Z; t_state : Z; t_timestamp : f64 }.

(** One loop iteration of the version 2 generator: checksum, 4 zero bytes,
    the data and the padding to 4 bytes, with the entry's timestamp. *)
Definition entry_v2 (entry_data : entry) : option (bytes * f64) :=
  timestamp <- get_timestamp (date entry_data) ;;
  data_bytes <- utf8_encode (text entry_data) ;;
  let crc := Z.land (crc32 data_bytes) 0xffffffff in
  f_crc <- pack_I crc ;;
  let entry := f_crc ++ zeros 4 ++ data_bytes in
  let padding_needed := (4 - Z.of_nat (length entry) mod 4) mod 4 in
  Some (entry ++ zeros (Z.to_nat padding_needed), timestamp).

Fixpoint entries_v2_loop (eds : list entry) (entries_v2 : list bytes)
    (entry_offsets_v2 : list trailer_info) (current_offset_v2 : Z)
    : option (list bytes * list trailer_info * Z) :=
  match eds with
  | [] => Some (entries_v2, entry_offsets_v2, current_offset_v2)
  | entry_data :: rest =>
      r <- entry_v2 entry_data ;;
      let '(entry, timestamp) := r in
      entries_v2_loop rest (entries_v2 ++ [entry])
        (entry_offsets_v2 ++ [mk_info current_offset_v2 WRITTEN timestamp])
        (current_offset_v2 + Z.of_nat (length entry))
  end.

Fixpoint trailer_loop (infos : list trailer_info) (trailer_v2 : bytes)
    : option bytes :=
  match infos with
  | [] => Some trailer_v2
  | entry_info :: rest =>
      f_off <- pack_I (t_offset entry_info) ;;
      f_state <- pack_i (t_state entry_info) ;;
      trailer_loop rest
        (trailer_v2 ++ f_off ++ f_state ++ pack_d (t_timestamp entry_info))
  end.

(** [now] is [datetime.datetime.now(tz=datetime.timezone.utc)]. *)
Definition encode_v2 (now : datetime) (entries_data : list entry)
    : option bytes :=
  let header_v2 := zeros 0x20 in
  let header_v2 := slice_assign header_v2 0x00 0x04 SEGB in
  let entry_count := Z.of_nat (length entries_data) in
  f_count <- pack_I entry_count ;;
  let header_v2 := slice_assign header_v2 0x04 0x08 f_count in
  creation_timestamp <- get_timestamp now ;;
  let header_v2 := slice_assign header_v2 0x08 0x10 (pack_d creation_timestamp) in
  let header_v2 := slice_assign header_v2 0x10 0x20 (zeros 16) in
  r <- entries_v2_loop entries_data [] [] 0 ;;
  let '(entries_v2, entry_offsets_v2, _) := r in
  trailer_v2 <- trailer_loop entry_offsets_v2 [] ;;
  Some (header_v2 ++ concat entries_v2 ++ trailer_v2).

(** The whole script: version 1 first, then version 2. *)
Definition run_script (entries_data : list entry) (now : datetime)
    : option (bytes * bytes) :=
  v1 <- encode_v1 entries_data ;;
  v2 <- encode_v2 now entries_data ;;
  Some (v1, v2).

(** The script's own sample entries. *)
Module Sample.
Import Strings.String.

Definition ascii_text (s : String.string) : list Z :=
  map (fun c => Z.of_N (Ascii.N_of_ascii c)) (String.list_ascii_of_string s).

Definition entries_data : list entry :=
  [ mk_entry (ascii_text "Here's to the crazy ones.") (mk_datetime 2007 1 9 0 0 0 0);
    mk_entry (ascii_text "The misfits.") (mk_datetime 2007 6 29 0 0 0 0);
    mk_entry (ascii_text "The rebels.") (mk_datetime 2011 10 5 0 0 0 0) ].

End Sample.

(** Clocks for the version 2 creation timestamp. *)
Definition clock_a : datetime := mk_datetime 2024 5 1 12 30 15 250000.
Definition clock_b : datetime := mk_datetime 2025 2 3 8 0 0 0.

(** The files the script writes for its sample entries. *)
Definition sample_v1 : bytes :=
  Eval vm_compute in match encode_v1 Sample.entries_data with Some b => b | None => [] end.

Definition sample_v2 : bytes :=
  Eval vm_compute in match encode_v2 clock_a Sample.entries_data with Some b => b | None => [] end.

(** The first sample entry as each loop emits it. *)
Definition sample_entry_v1 : bytes :=
  Eval vm_compute in
    match Sample.entries_data with
    | ed :: _ => match entry_v1 ed with Some e => e | None => [] end
    | [] => []
    end.

Definition sample_entry_v2 : bytes * f64 :=
  Eval vm_compute in
    match Sample.entries_data with
    | ed :: _ => match entry_v2 ed with Some r => r | None => ([], 0) end
    | [] => ([], 0)
    end.

(** The script run with the second clock. *)
Definition sample_v2_b : bytes :=
  Eval vm_compute in match encode_v2 clock_b Sample.entries_data with Some b => b | None => [] end.

(** Two one-entry inputs with the same date whose data differ by a trailing
    zero byte: "Ata&," has CRC32 0xFFFFFFFF, as does "Ata&,\x00", and both
    entries are padded to 16 bytes in version 2. *)
Definition collision_text_a : list Z := [65; 116; 97; 38; 44].
Definition collision_text_b : list Z := [65; 116; 97; 38; 44; 0].

Definition collision_a : list entry :=
  [mk_entry collision_text_a (mk_datetime 2007 1 9 0 0 0 0)].
Definition collision_b : list entry :=
  [mk_entry collision_text_b (mk_datetime 2007 1 9 0 0 0 0)].

(** An entry whose text holds a lone surrogate (U+D800), which
    [str.encode('utf-8')] rejects. *)
Definition surrogate_entry : entry :=
  mk_entry [72; 0xD800] (mk_datetime 2007 1 9 0 0 0 0).

(** A text with code points of each UTF-8 width: 'H', U+00E9, U+20AC and
    U+1F600, and its encoding. *)
Definition sample_text : list Z := [72; 233; 8364; 128512].

Definition sample_text_utf8 : bytes :=
  Eval vm_compute in match utf8_encode sample_text with Some b => b | None => [] end.

(** The files for the first collision input alone and for the sample entries
    followed by it. *)
Definition collision_a_v1 : bytes :=
  Eval vm_compute in match encode_v1 collision_a with Some b => b | None => [] end.

Definition joined_v1 : bytes :=
  Eval vm_compute in
    match encode_v1 (Sample.entries_data ++ collision_a) with Some b => b | None => [] end.

Definition joined_v2 : bytes :=
  Eval vm_compute in
    match encode_v2 clock_a (Sample.entries_data ++ collision_a) with
    | Some b => b | None => [] end.

(** Half a second before 2001-01-01T00:00:00. *)
Definition pre_epoch : datetime := mk_datetime 2000 12 31 23 59 59 500000.

(** [(align - (size % align)) % align], the padding formula of both loops. *)
Definition pad_len (size align : Z) : Z := (align - size mod align) mod align.

(** * Readers

    The repository contains only the writer; the readers below follow the
    format description of the specification (sections 4.2 and 4.3). *)

Inductive format_error := BadMagic | Truncated | InconsistentTrailer.

Inductive result (A : Type) := Ok (a : A) | Err (e : format_error).
Arguments Ok {A} a.
Arguments Err {A} e.

Record record := mk_record {
  r_data : bytes; r_state : Z; r_timestamp : f64; r_valid : bool }.

Definition i32_of (v : Z) : Z := if v <? 2 ^ 31 then v else v - 2 ^ 32.

Definition bytes_eqb (a b : bytes) : bool :=
  if list_eq_dec Byte.byte_eq_dec a b then true else false.

(** Modelled from the spec: the version 1 entry loop of the reader (4.2).
    From [off], read a 32-byte entry header, take [length] data bytes, flag
    the checksum, skip the padding to the next multiple of 8, and stop at
    [end_offset]; an entry that does not fit is [Truncated]. *)
Fixpoint decode_v1_entries (fuel : nat) (buf : bytes) (off end_offset : nat)
    : result (list record) :=
  match fuel with
  | O => Err Truncated
  | S fuel' =>
      if (end_offset <=? off)%nat then Ok []
      else if (length buf <? off + 0x20)%nat then Err Truncated
      else
        let len := Z.to_nat (le_value (slice buf off 4)) in
        if (length buf <? off + 0x20 + len)%nat then Err Truncated
        else
          let data := slice buf (off + 0x20) len in
          let r := mk_record data (i32_of (le_value (slice buf (off + 0x04) 4)))
                     (le_value (slice buf (off + 0x08) 8))
                     (crc32 data =? le_value (slice buf (off + 0x18) 4)) in
          let next := (off + 0x20 + len)%nat in
          let next := (next + Z.to_nat (pad_len (Z.of_nat next) 8))%nat in
          match decode_v1_entries fuel' buf next end_offset with
          | Ok rs => Ok (r :: rs)
          | Err e => Err e
          end
  end.

(** Modelled from the spec: the version 1 reader (4.2). *)
Definition decode_v1 (buf : bytes) : result (list record) :=
  if (length buf <? 0x38)%nat then Err BadMagic
  else if bytes_eqb (slice buf 0x34 4) SEGB then
    decode_v1_entries (length buf) buf 0x38 (Z.to_nat (le_value (slice buf 0 4)))
  else Err BadMagic.

Fixpoint map_result {A B} (f : A -> result B) (l : list A) : result (list B) :=
  match l with
  | [] => Ok []
  | a :: l' =>
      match f a with
      | Ok b => match map_result f l' with Ok bs => Ok (b :: bs) | Err e => Err e end
      | Err e => Err e
      end
  end.

(** Modelled from the spec: removing an entry's trailing padding.  The
    padding is 0 to 3 zero bytes (alignment 4) and its length is not stored,
    so the reader drops up to three trailing zero bytes. *)
Fixpoint drop_zeros (k : nat) (l : bytes) : bytes :=
  match k, l with
  | S k', b :: l' => if Byte.eqb b x00 then drop_zeros k' l' else l
  | _, _ => l
  end.

Definition strip_padding (span : bytes) : bytes := rev (drop_zeros 3 (rev span)).

(** Modelled from the spec: the version 2 reader (4.3).  The trailer is the
    last [entry_count * 16] bytes; entry [i] spans from its offset to the
    next offset (the trailer start for the last entry).  The data length is
    not stored: it is the span minus the checksum and reserved bytes and
    minus the trailing padding. *)
Definition decode_v2 (buf : bytes) : result (list record) :=
  if (length buf <? 0x20)%nat then Err Truncated
  else if negb (bytes_eqb (slice buf 0 4) SEGB) then Err BadMagic
  else
    let entry_count := Z.to_nat (le_value (slice buf 4 4)) in
    if (length buf <? 0x20 + 16 * entry_count)%nat then Err Truncated
    else
      let trailer_start := (length buf - 16 * entry_count)%nat in
      let offset i := Z.to_nat (le_value (slice buf (trailer_start + 16 * i) 4)) in
      let next i := if (S i <? entry_count)%nat then offset (S i)
                    else (trailer_start - 0x20)%nat in
      map_result (fun i =>
        if (next i <? offset i + 8)%nat || (trailer_start - 0x20 <? next i)%nat
        then Err InconsistentTrailer
        else
          let data := strip_padding (slice buf (0x20 + offset i + 8) (next i - offset i - 8)) in
          Ok (mk_record data
                (i32_of (le_value (slice buf (trailer_start + 16 * i + 4) 4)))
                (le_value (slice buf (trailer_start + 16 * i + 8) 8))
                (crc32 data =? le_value (slice buf (0x20 + offset i) 4))))
        (seq 0 entry_count).

(** * Layout of the encoded entries

    Closed forms of what the loops append, used to state the properties. *)

Definition data_len (d : bytes) : Z := Z.of_nat (length d).


(** The bytes one version 1 loop iteration appends, field by field. *)
Definition v1_layout (ts : f64) (d : bytes) : bytes :=
  le_bytes 4 (data_len d) ++ le_bytes 4 WRITTEN ++ pack_d ts ++ pack_d ts
  ++ le_bytes 4 (crc32 d) ++ zeros 4 ++ d
  ++ zeros (Z.to_nat (pad_len (0x20 + data_len d) 8)).

Definition v1_size (d : bytes) : Z :=
  0x20 + data_len d + pad_len (0x20 + data_len d) 8.

(** The bytes one version 2 loop iteration appends. *)
Definition v2_layout (d : bytes) : bytes :=
  le_bytes 4 (crc32 d) ++ zeros 4 ++ d
  ++ zeros (Z.to_nat (pad_len (8 + data_len d) 4)).

Definition v2_size (d : bytes) : Z :=
  8 + data_len d + pad_len (8 + data_len d) 4.

Definition sum_Z (l : list Z) : Z := fold_right Z.add 0 l.

(** Start of entry [i] in a version 1 file (absolute). *)
Definition off_v1 (datas : list bytes) (i : nat) : Z :=
  0x38 + sum_Z (map v1_size (firstn i datas)).

(** Start of entry [i] in a version 2 file, relative to the data region. *)
Definition off_v2 (datas : list bytes) (i : nat) : Z :=
  sum_Z (map v2_size (firstn i datas)).

(** What an input entry contributes: its timestamp and its encoded text. *)
Definition entry_parts (ed : entry) (p : f64 * bytes) : Prop :=
  get_timestamp (date ed) = Some (fst p) /\ utf8_encode (text ed) = Some (snd p).

(** The trailer records the version 2 loop collects, from offset [cur]. *)
Fixpoint trailer_infos (cur : Z) (ps : list (f64 * bytes)) : list trailer_info :=
  match ps with
  | [] => []
  | p :: ps' => mk_info cur WRITTEN (fst p) :: trailer_infos (cur + v2_size (snd p)) ps'
  end.

Definition info_bytes (i : trailer_info) : bytes :=
  le_bytes 4 (t_offset i) ++ le_bytes 4 (t_state i) ++ pack_d (t_timestamp i).

(** * Facts about the byte-level primitives *)

Lemma Z_of_b_of_Z (z : Z) : Z_of_b (b_of_Z z) = z mod 256.
Proof.
  unfold Z_of_b, b_of_Z.
  assert (Hb : 0 <= z mod 256 < 256) by (apply Z.mod_pos_bound; lia).
  destruct (Byte.of_N (Z.to_N (z mod 256))) as [b|] eqn:E.
  - apply Byte.to_of_N in E. rewrite E. lia.
  - apply Byte.of_N_None_iff in E. lia.
Qed.

Lemma Z_of_b_bound (b : byte) : 0 <= Z_of_b b < 256.
Proof.
  unfold Z_of_b. pose proof (Byte.to_N_bounded b). lia.
Qed.

Lemma length_le_bytes (n : nat) (x : Z) : length (le_bytes n x) = n.
Proof.
  revert x; induction n as [|n IH]; intros x; simpl; [reflexivity|].
  now rewrite IH.
Qed.

Lemma length_zeros (n : nat) : length (zeros n) = n.
Proof. apply repeat_length. Qed.

Lemma le_value_le_bytes (n : nat) (x : Z) :
  le_value (le_bytes n x) = x mod 2 ^ (8 * Z.of_nat n).
Proof.
  revert x; induction n as [|n IH]; intros x.
  - simpl. now rewrite Z.mod_1_r.
  - cbn [le_bytes le_value]. rewrite IH, Z_of_b_of_Z, Z.shiftr_div_pow2 by lia.
    replace (8 * Z.of_nat (S n)) with (8 + 8 * Z.of_nat n) by lia.
    rewrite Z.pow_add_r by lia.
    change (2 ^ 8) with 256.
    assert (Hp : 0 < 2 ^ (8 * Z.of_nat n)) by (apply Z.pow_pos_nonneg; lia).
    apply Z.mod_unique with (q := x / 256 / 2 ^ (8 * Z.of_nat n)).
    + left. pose proof (Z.mod_pos_bound x 256 ltac:(lia)).
      pose proof (Z.mod_pos_bound (x / 256) (2 ^ (8 * Z.of_nat n)) Hp). nia.
    + pose proof (Z.div_mod x 256 ltac:(lia)).
      pose proof (Z.div_mod (x / 256) (2 ^ (8 * Z.of_nat n)) ltac:(lia)).
      nia.
Qed.

Lemma le_value_le32 (x : Z) : 0 <= x < 2 ^ 32 -> le_value (le_bytes 4 x) = x.
Proof.
  intros H. rewrite le_value_le_bytes. apply Z.mod_small. exact H.
Qed.

Lemma le_value_zeros (n : nat) : le_value (zeros n) = 0.
Proof. unfold zeros. induction n as [|n IH]; simpl; [reflexivity|]. now rewrite IH. Qed.

Lemma pack_I_Some (x : Z) (b : bytes) :
  pack_I x = Some b -> 0 <= x < 2 ^ 32 /\ b = le_bytes 4 x.
Proof.
  unfold pack_I. destruct (0 <=? x) eqn:E1, (x <? 2 ^ 32) eqn:E2;
    simpl; intros H; try discriminate.
  inversion H; subst. split; [lia | reflexivity].
Qed.

Lemma pack_I_ok (x : Z) : 0 <= x < 2 ^ 32 -> pack_I x = Some (le_bytes 4 x).
Proof.
  intros H. unfold pack_I.
  replace ((0 <=? x) && (x <? 2 ^ 32)) with true by lia. reflexivity.
Qed.

Lemma pack_i_written : pack_i WRITTEN = Some (le_bytes 4 1).
Proof. reflexivity. Qed.

Lemma slice_app_l (a b : bytes) (off len : nat) :
  (off + len <= length a)%nat -> slice (a ++ b) off len = slice a off len.
Proof.
  intros H. unfold slice. rewrite skipn_app.
  replace (off - length a)%nat with 0%nat by lia.
  rewrite firstn_app. rewrite length_skipn.
  replace (len - (length a - off))%nat with 0%nat by lia.
  simpl. now rewrite app_nil_r.
Qed.

Lemma slice_app_r (a b : bytes) (off len : nat) :
  slice (a ++ b) (length a + off) len = slice b off len.
Proof.
  unfold slice. rewrite skipn_app.
  replace (length a + off - length a)%nat with off by lia.
  rewrite skipn_all2 by lia. reflexivity.
Qed.

Lemma slice_whole (a b : bytes) : slice (a ++ b) 0 (length a) = a.
Proof.
  unfold slice. simpl. rewrite firstn_app, Nat.sub_diag, firstn_all. simpl.
  apply app_nil_r.
Qed.

(** ** CRC32 values are 32-bit *)

Lemma lxor_bound32 (a b : Z) :
  0 <= a < 2 ^ 32 -> 0 <= b < 2 ^ 32 -> 0 <= Z.lxor a b < 2 ^ 32.
Proof.
  intros Ha Hb.
  assert (Hn : 0 <= Z.lxor a b) by (apply Z.lxor_nonneg; lia).
  split; [exact Hn|].
  destruct (Z.eq_dec (Z.lxor a b) 0) as [E|E]; [rewrite E; lia|].
  apply Z.log2_lt_pow2; [lia|].
  eapply Z.le_lt_trans; [apply Z.log2_lxor; lia|].
  apply Z.max_lub_lt.
  - destruct (Z.eq_dec a 0) as [->|]; [simpl; lia|]. apply Z.log2_lt_pow2; lia.
  - destruct (Z.eq_dec b 0) as [->|]; [simpl; lia|]. apply Z.log2_lt_pow2; lia.
Qed.

Lemma crc_shift_bound (k : nat) (c : Z) :
  0 <= c < 2 ^ 32 -> 0 <= crc_shift k c < 2 ^ 32.
Proof.
  revert c; induction k as [|k IH]; intros c Hc; simpl; [exact Hc|].
  apply IH.
  assert (Hs : 0 <= Z.shiftr c 1 < 2 ^ 32).
  { rewrite Z.shiftr_div_pow2 by lia. change (2 ^ 1) with 2.
    split; [apply Z.div_pos; lia | apply Z.div_lt_upper_bound; lia]. }
  destruct (Z.odd c); [apply lxor_bound32; [exact Hs | lia] | exact Hs].
Qed.

Lemma crc32_bound (data : bytes) : 0 <= crc32 data < 2 ^ 32.
Proof.
  unfold crc32. apply lxor_bound32; [|lia].
  assert (G : forall l c, 0 <= c < 2 ^ 32 -> 0 <= fold_left crc_update l c < 2 ^ 32).
  { induction l as [|b l IH]; intros c Hc; simpl; [exact Hc|].
    apply IH. unfold crc_update. apply crc_shift_bound.
    apply lxor_bound32; [exact Hc|]. pose proof (Z_of_b_bound b); lia. }
  apply G. lia.
Qed.

(** [binascii.crc32(data) & 0xffffffff] is [binascii.crc32(data)]. *)
Lemma crc32_mask (data : bytes) : Z.land (crc32 data) 0xffffffff = crc32 data.
Proof.
  change 0xffffffff with (Z.ones 32). rewrite Z.land_ones by lia.
  apply Z.mod_small, crc32_bound.
Qed.

(** * Entry layouts *)

Lemma some_eq {A} (a b : A) : Some a = Some b -> a = b.
Proof. intros H; inversion H; auto. Qed.

Lemma pair_eq {A B} (a a' : A) (b b' : B) : (a, b) = (a', b') -> a = a' /\ b = b'.
Proof. intros H; inversion H; auto. Qed.


Lemma sum_Z_cons (x : Z) (l : list Z) : sum_Z (x :: l) = x + sum_Z l.
Proof. reflexivity. Qed.

Lemma sum_Z_nil : sum_Z [] = 0.
Proof. reflexivity. Qed.

Lemma pad_len_bound (size align : Z) : 0 < align -> 0 <= pad_len size align < align.
Proof. intros H. unfold pad_len. apply Z.mod_pos_bound. exact H. Qed.

Lemma pad_len_aligned (size align : Z) : 0 < align -> (size + pad_len size align) mod align = 0.
Proof.
  intros H. unfold pad_len. rewrite Z.add_mod_idemp_r by lia.
  rewrite (Z.mod_eq size align) by lia.
  replace (size + (align - (size - align * (size / align)))) with ((size / align + 1) * align) by ring.
  apply Z.mod_mul. lia.
Qed.

Lemma length_v1_layout (ts : f64) (d : bytes) :
  Z.of_nat (length (v1_layout ts d)) = v1_size d.
Proof.
  unfold v1_layout, v1_size, pack_d.
  pose proof (pad_len_bound (0x20 + data_len d) 8 ltac:(lia)).
  rewrite !length_app, !length_le_bytes, !length_zeros. unfold data_len in *. lia.
Qed.

Lemma length_v2_layout (d : bytes) : Z.of_nat (length (v2_layout d)) = v2_size d.
Proof.
  unfold v2_layout, v2_size.
  pose proof (pad_len_bound (8 + data_len d) 4 ltac:(lia)).
  rewrite !length_app, !length_le_bytes, !length_zeros. unfold data_len in *. lia.
Qed.

Lemma header_v1_fill (x s t c : Z) :
  slice_assign (slice_assign (slice_assign (slice_assign (slice_assign
    (slice_assign (zeros 0x20) 0x00 0x04 (le_bytes 4 x)) 0x04 0x08 (le_bytes 4 s))
    0x08 0x10 (pack_d t)) 0x10 0x18 (pack_d t)) 0x18 0x1C (le_bytes 4 c))
    0x1C 0x20 (zeros 4)
  = le_bytes 4 x ++ le_bytes 4 s ++ pack_d t ++ pack_d t ++ le_bytes 4 c ++ zeros 4.
Proof.
  cbn [slice_assign zeros repeat firstn skipn le_bytes pack_d app]. reflexivity.
Qed.

Lemma entry_v1_shape (ed : entry) (e : bytes) :
  entry_v1 ed = Some e ->
  exists ts d, get_timestamp (date ed) = Some ts /\ utf8_encode (text ed) = Some d
    /\ data_len d < 2 ^ 32 /\ e = v1_layout ts d.
Proof.
  unfold entry_v1.
  destruct (get_timestamp (date ed)) as [ts|]; [|discriminate].
  destruct (utf8_encode (text ed)) as [d|]; [|discriminate].
  destruct (pack_I (Z.of_nat (length d))) as [fl|] eqn:Hl; [|discriminate].
  rewrite pack_i_written, crc32_mask, (pack_I_ok (crc32 d) (crc32_bound d)).
  apply pack_I_Some in Hl as [Hl ->].
  cbv zeta. rewrite header_v1_fill. intros H. apply some_eq in H. subst e.
  exists ts, d. split; [reflexivity|]. split; [reflexivity|].
  split; [unfold data_len; lia|].
  unfold v1_layout, pad_len, data_len.
  rewrite !length_app, length_zeros; unfold pack_d; rewrite !length_le_bytes.
  match goal with |- context [Z.of_nat (?n + length d)] =>
    replace (Z.of_nat (n + length d)) with (0x20 + Z.of_nat (length d)) by lia end.
  rewrite <- !app_assoc. reflexivity.
Qed.

Lemma entry_v2_shape (ed : entry) (e : bytes) (ts : f64) :
  entry_v2 ed = Some (e, ts) ->
  exists d, get_timestamp (date ed) = Some ts /\ utf8_encode (text ed) = Some d
    /\ e = v2_layout d.
Proof.
  unfold entry_v2.
  destruct (get_timestamp (date ed)) as [ts'|]; [|discriminate].
  destruct (utf8_encode (text ed)) as [d|]; [|discriminate].
  rewrite crc32_mask, (pack_I_ok (crc32 d) (crc32_bound d)).
  intros H. apply some_eq, pair_eq in H as [<- <-].
  exists d. split; [reflexivity|]. split; [reflexivity|].
  unfold v2_layout, pad_len, data_len.
  assert (E : Z.of_nat (length (le_bytes 4 (crc32 d) ++ zeros 4 ++ d))
              = 8 + Z.of_nat (length d))
    by (rewrite !length_app, length_le_bytes, length_zeros; lia).
  rewrite E, <- !app_assoc. reflexivity.
Qed.

(** * Whole files *)


(** Unfolding equations of the loops (stated once, used by [rewrite]). *)
Lemma entries_v1_loop_nil (acc : list bytes) (cur : Z) :
  entries_v1_loop [] acc cur = Some (acc, cur).
Proof. reflexivity. Qed.

Lemma entries_v1_loop_cons (ed : entry) (eds : list entry) (acc : list bytes) (cur : Z) :
  entries_v1_loop (ed :: eds) acc cur
  = (e <- entry_v1 ed ;; entries_v1_loop eds (acc ++ [e]) (cur + Z.of_nat (length e))).
Proof. reflexivity. Qed.

Lemma entries_v1_loop_spec (eds : list entry) :
  forall acc cur es c,
  entries_v1_loop eds acc cur = Some (es, c) ->
  exists ps, Forall2 (fun ed p => entry_parts ed p /\ data_len (snd p) < 2 ^ 32) eds ps
    /\ es = acc ++ map (fun p => v1_layout (fst p) (snd p)) ps
    /\ c = cur + sum_Z (map v1_size (map snd ps)).
Proof.
  induction eds as [|ed eds IH]; intros acc cur es c H;
    [rewrite entries_v1_loop_nil in H | rewrite entries_v1_loop_cons in H].
  - apply some_eq, pair_eq in H as [<- <-].
    exists []. split; [constructor|]. cbn [map]. rewrite sum_Z_nil.
    split; [now rewrite app_nil_r | lia].
  - destruct (entry_v1 ed) as [e|] eqn:He; [|discriminate].
    apply entry_v1_shape in He as (ts & d & Hts & Hd & Hlen & ->).
    apply IH in H as (ps & Hps & -> & ->).
    exists ((ts, d) :: ps). split; [constructor; [split; [split|]|]; assumption|].
    split; [cbn [map]; now rewrite <- app_assoc|].
    rewrite length_v1_layout. cbn [map snd]. rewrite sum_Z_cons. lia.
Qed.

Lemma header_v1_file (x : Z) :
  slice_assign (slice_assign (zeros 0x38) 0x34 0x38 SEGB) 0x00 0x04 (le_bytes 4 x)
  = le_bytes 4 x ++ zeros 48 ++ SEGB.
Proof.
  cbn [slice_assign zeros repeat firstn skipn le_bytes app]. reflexivity.
Qed.

Lemma encode_v1_shape (eds : list entry) (out : bytes) :
  encode_v1 eds = Some out ->
  exists ps, Forall2 (fun ed p => entry_parts ed p /\ data_len (snd p) < 2 ^ 32) eds ps
    /\ 0x38 + sum_Z (map v1_size (map snd ps)) < 2 ^ 32
    /\ out = le_bytes 4 (0x38 + sum_Z (map v1_size (map snd ps))) ++ zeros 48 ++ SEGB
             ++ concat (map (fun p => v1_layout (fst p) (snd p)) ps).
Proof.
  unfold encode_v1.
  destruct (entries_v1_loop eds [] 0x38) as [[es c]|] eqn:Hl; [|discriminate].
  apply entries_v1_loop_spec in Hl as (ps & Hps & -> & ->).
  destruct (pack_I _) as [f|] eqn:Hf; [|discriminate].
  apply pack_I_Some in Hf as [Hb ->].
  rewrite header_v1_file. intros H. apply some_eq in H. subst out.
  exists ps. split; [exact Hps|]. split; [lia | reflexivity].
Qed.


Lemma entries_v2_loop_nil acc_es acc_infos (cur : Z) :
  entries_v2_loop [] acc_es acc_infos cur = Some (acc_es, acc_infos, cur).
Proof. reflexivity. Qed.

Lemma entries_v2_loop_cons (ed : entry) (eds : list entry) acc_es acc_infos (cur : Z) :
  entries_v2_loop (ed :: eds) acc_es acc_infos cur
  = (r <- entry_v2 ed ;;
     let '(entry, timestamp) := r in
     entries_v2_loop eds (acc_es ++ [entry])
       (acc_infos ++ [mk_info cur WRITTEN timestamp]) (cur + Z.of_nat (length entry))).
Proof. reflexivity. Qed.

Lemma trailer_loop_nil (acc : bytes) : trailer_loop [] acc = Some acc.
Proof. reflexivity. Qed.

Lemma trailer_loop_cons (inf : trailer_info) (infos : list trailer_info) (acc : bytes) :
  trailer_loop (inf :: infos) acc
  = (f_off <- pack_I (t_offset inf) ;; f_state <- pack_i (t_state inf) ;;
     trailer_loop infos (acc ++ f_off ++ f_state ++ pack_d (t_timestamp inf))).
Proof. reflexivity. Qed.

Lemma entries_v2_loop_spec (eds : list entry) :
  forall acc_es acc_infos cur es infos c,
  entries_v2_loop eds acc_es acc_infos cur = Some (es, infos, c) ->
  exists ps, Forall2 entry_parts eds ps
    /\ es = acc_es ++ map (fun p => v2_layout (snd p)) ps
    /\ infos = acc_infos ++ trailer_infos cur ps
    /\ c = cur + sum_Z (map v2_size (map snd ps)).
Proof.
  induction eds as [|ed eds IH]; intros acc_es acc_infos cur es infos c H;
    [rewrite entries_v2_loop_nil in H | rewrite entries_v2_loop_cons in H].
  - apply some_eq, pair_eq in H as [H <-]. apply pair_eq in H as [<- <-].
    exists []. split; [constructor|]. cbn [map trailer_infos]. rewrite sum_Z_nil.
    rewrite !app_nil_r.
    split; [reflexivity|]. split; [reflexivity | lia].
  - destruct (entry_v2 ed) as [[e ts]|] eqn:He; [|discriminate].
    apply entry_v2_shape in He as (d & Hts & Hd & ->).
    apply IH in H as (ps & Hps & -> & -> & ->).
    exists ((ts, d) :: ps). split; [constructor; [split|]; assumption|].
    cbn [map trailer_infos snd fst]. rewrite sum_Z_cons.
    rewrite <- !app_assoc, length_v2_layout.
    split; [reflexivity|]. split; [reflexivity | lia].
Qed.

Lemma trailer_loop_spec (infos : list trailer_info) :
  forall acc t, trailer_loop infos acc = Some t ->
  Forall (fun i => 0 <= t_offset i < 2 ^ 32) infos
  /\ t = acc ++ concat (map info_bytes infos)
  \/ exists i, In i infos /\ pack_i (t_state i) = None.
Proof.
  induction infos as [|inf infos IH]; intros acc t H;
    [rewrite trailer_loop_nil in H | rewrite trailer_loop_cons in H].
  - apply some_eq in H. subst t. left. split; [constructor | cbn [map concat]; now rewrite app_nil_r].
  - destruct (pack_I (t_offset inf)) as [fo|] eqn:Ho; [|discriminate].
    apply pack_I_Some in Ho as [Ho ->].
    destruct (pack_i (t_state inf)) as [fs|] eqn:Hs; [|discriminate].
    destruct (IH _ _ H) as [[Hall ->] | (i & Hi & Hn)].
    + left. split; [constructor; assumption|].
      unfold pack_i in Hs.
      destruct ((- 2 ^ 31 <=? t_state inf) && (t_state inf <? 2 ^ 31)); [|discriminate].
      apply some_eq in Hs. subst fs. cbn [map concat]. unfold info_bytes. now rewrite <- !app_assoc.
    + right. exists i. split; [right; exact Hi | exact Hn].
Qed.

Lemma trailer_infos_state (ps : list (f64 * bytes)) :
  forall cur, Forall (fun i => t_state i = WRITTEN) (trailer_infos cur ps).
Proof.
  induction ps as [|p ps IH]; intros cur; cbn [trailer_infos]; constructor; auto.
Qed.

Lemma header_v2_fill (n c : Z) :
  slice_assign (slice_assign (slice_assign (slice_assign (zeros 0x20)
    0x00 0x04 SEGB) 0x04 0x08 (le_bytes 4 n)) 0x08 0x10 (pack_d c)) 0x10 0x20 (zeros 16)
  = SEGB ++ le_bytes 4 n ++ pack_d c ++ zeros 16.
Proof.
  cbn [slice_assign zeros repeat firstn skipn le_bytes pack_d app]. reflexivity.
Qed.

Lemma encode_v2_shape (now : datetime) (eds : list entry) (out : bytes) :
  encode_v2 now eds = Some out ->
  exists cts ps, get_timestamp now = Some cts /\ Forall2 entry_parts eds ps
    /\ Z.of_nat (length eds) < 2 ^ 32
    /\ Forall (fun i => 0 <= t_offset i < 2 ^ 32) (trailer_infos 0 ps)
    /\ out = SEGB ++ le_bytes 4 (Z.of_nat (length eds)) ++ pack_d cts ++ zeros 16
             ++ concat (map (fun p => v2_layout (snd p)) ps)
             ++ concat (map info_bytes (trailer_infos 0 ps)).
Proof.
  unfold encode_v2.
  destruct (pack_I (Z.of_nat (length eds))) as [fc|] eqn:Hc; [|discriminate].
  apply pack_I_Some in Hc as [Hc ->].
  destruct (get_timestamp now) as [cts|] eqn:Hn; [|discriminate].
  destruct (entries_v2_loop eds [] [] 0) as [[[es infos] c]|] eqn:Hl; [|discriminate].
  apply entries_v2_loop_spec in Hl as (ps & Hps & -> & -> & _).
  destruct (trailer_loop ([] ++ trailer_infos 0 ps) []) as [t|] eqn:Ht; [|discriminate].
  apply trailer_loop_spec in Ht as [[Hoff ->] | (i & Hi & Hn')].
  - rewrite header_v2_fill. intros H. apply some_eq in H. subst out.
    exists cts, ps. split; [reflexivity|]. split; [exact Hps|]. split; [lia|].
    split; [exact Hoff | reflexivity].
  - exfalso. pose proof (trailer_infos_state ps 0) as Hs.
    rewrite Forall_forall in Hs. rewrite (Hs i Hi) in Hn'. discriminate.
Qed.

(** * Positions inside concatenations *)

Lemma slice_mid (pre x post : bytes) (k len : nat) :
  (k + len <= length x)%nat ->
  slice (pre ++ x ++ post) (length pre + k) len = slice x k len.
Proof.
  intros H. rewrite slice_app_r. apply slice_app_l. exact H.
Qed.

Lemma slice_prefix (b : bytes) (off len n : nat) :
  (n <= len)%nat -> slice (slice b off len) 0 n = slice b off n.
Proof.
  intros H. unfold slice. cbn [skipn]. rewrite firstn_firstn. f_equal. lia.
Qed.

Lemma slice_full (x : bytes) : slice x 0 (length x) = x.
Proof. unfold slice. cbn [skipn]. apply firstn_all. Qed.

Lemma slice_all (x post : bytes) : slice (x ++ post) 0 (length x) = x.
Proof. apply slice_whole. Qed.

Lemma concat_split_at (es : list bytes) (i : nat) (e : bytes) :
  nth_error es i = Some e ->
  concat es = concat (firstn i es) ++ e ++ concat (skipn (S i) es).
Proof.
  intros H. apply nth_error_split in H as (l1 & l2 & -> & <-).
  rewrite firstn_app, firstn_all, Nat.sub_diag. cbn [firstn]. rewrite app_nil_r.
  rewrite skipn_app, skipn_all2 by lia.
  replace (S (length l1) - length l1)%nat with 1%nat by lia. cbn [skipn app].
  rewrite concat_app. reflexivity.
Qed.

Lemma length_concat_map {A} (f : A -> bytes) (size : A -> Z) (l : list A) :
  (forall a, Z.of_nat (length (f a)) = size a) ->
  Z.of_nat (length (concat (map f l))) = sum_Z (map size l).
Proof.
  intros Hf. induction l as [|a l IH]; [reflexivity|].
  cbn [map concat]. rewrite length_app, sum_Z_cons, <- IH, <- Hf. lia.
Qed.

Lemma sum_Z_nonneg {A} (size : A -> Z) (l : list A) :
  (forall a, 0 <= size a) -> 0 <= sum_Z (map size l).
Proof.
  intros H. induction l as [|a l IH]; [reflexivity|].
  cbn [map]. rewrite sum_Z_cons. specialize (H a). lia.
Qed.

Lemma v1_size_ge (d : bytes) : 0x20 <= v1_size d.
Proof.
  unfold v1_size. pose proof (pad_len_bound (0x20 + data_len d) 8 ltac:(lia)).
  unfold data_len in *. lia.
Qed.

Lemma v2_size_ge (d : bytes) : 8 <= v2_size d.
Proof.
  unfold v2_size. pose proof (pad_len_bound (8 + data_len d) 4 ltac:(lia)).
  unfold data_len in *. lia.
Qed.

Lemma Forall2_texts {P : entry -> f64 * bytes -> Prop} (eds : list entry) ps :
  (forall ed p, P ed p -> utf8_encode (text ed) = Some (snd p)) ->
  Forall2 P eds ps ->
  Forall2 (fun ed d => utf8_encode (text ed) = Some d) eds (map snd ps).
Proof.
  intros HP H. induction H as [|ed p eds ps Hp _ IH]; constructor; auto.
Qed.

(** * Version 1: the end offset *)

(** C2. The u32 at [0x00:0x04) of a version 1 file is [0x38] plus the padded
    sizes of all entries, and it is the file's length. *)
Theorem v1_end_offset (eds : list entry) (out : bytes) :
  encode_v1 eds = Some out ->
  exists datas, Forall2 (fun ed d => utf8_encode (text ed) = Some d) eds datas
    /\ le_value (slice out 0 4) = 0x38 + sum_Z (map v1_size datas)
    /\ Z.of_nat (length out) = le_value (slice out 0 4).
Proof.
  intros H. apply encode_v1_shape in H as (ps & Hps & Hb & ->).
  exists (map snd ps). split.
  { revert Hps. apply Forall2_texts. intros ed p [[_ Hd] _]. exact Hd. }
  assert (E : slice (le_bytes 4 (0x38 + sum_Z (map v1_size (map snd ps))) ++ zeros 48 ++ SEGB
                     ++ concat (map (fun p => v1_layout (fst p) (snd p)) ps)) 0 4
              = le_bytes 4 (0x38 + sum_Z (map v1_size (map snd ps)))).
  { rewrite <- (length_le_bytes 4 (0x38 + sum_Z (map v1_size (map snd ps)))) at 2.
    apply slice_all. }
  rewrite E, le_value_le32.
  2: { assert (0 <= sum_Z (map v1_size (map snd ps))).
         { apply sum_Z_nonneg. intros d. pose proof (v1_size_ge d). lia. }
         lia. }
  split; [reflexivity|].
  pose proof (length_concat_map (fun p => v1_layout (fst p) (snd p))
    (fun p => v1_size (snd p)) ps (fun p => length_v1_layout _ _)) as HL.
  rewrite !length_app, length_le_bytes, length_zeros, map_map. cbn [length SEGB]. lia.
Qed.

(** * Fields of one entry *)

Lemma slice_entry (hdr : bytes) (es : list bytes) (tl : bytes) (i : nat) (e : bytes)
    (k len : nat) :
  nth_error es i = Some e -> (k + len <= length e)%nat ->
  slice (hdr ++ concat es ++ tl) (length hdr + length (concat (firstn i es)) + k) len
  = slice e k len.
Proof.
  intros He Hk. rewrite (concat_split_at es i e He).
  replace (hdr ++ (concat (firstn i es) ++ e ++ concat (skipn (S i) es)) ++ tl)
    with ((hdr ++ concat (firstn i es)) ++ e ++ (concat (skipn (S i) es) ++ tl))
    by (now rewrite <- !app_assoc).
  rewrite <- length_app. apply slice_mid. exact Hk.
Qed.

Lemma v1_layout_fields (ts : f64) (d : bytes) :
  slice (v1_layout ts d) 0x00 4 = le_bytes 4 (data_len d)
  /\ slice (v1_layout ts d) 0x04 4 = le_bytes 4 WRITTEN
  /\ slice (v1_layout ts d) 0x08 8 = pack_d ts
  /\ slice (v1_layout ts d) 0x10 8 = pack_d ts
  /\ slice (v1_layout ts d) 0x18 4 = le_bytes 4 (crc32 d)
  /\ slice (v1_layout ts d) 0x1C 4 = zeros 4
  /\ slice (v1_layout ts d) 0x20 (length d) = d.
Proof.
  unfold v1_layout, slice.
  repeat split;
    cbn [slice firstn skipn le_bytes pack_d app zeros repeat]; try reflexivity.
  rewrite firstn_app, Nat.sub_diag, firstn_all. cbn [firstn]. apply app_nil_r.
Qed.


Lemma v2_layout_fields (d : bytes) :
  slice (v2_layout d) 0 4 = le_bytes 4 (crc32 d)
  /\ slice (v2_layout d) 4 4 = zeros 4
  /\ slice (v2_layout d) 8 (length d) = d.
Proof.
  unfold v2_layout, slice.
  repeat split; cbn [firstn skipn le_bytes app zeros repeat]; try reflexivity.
  rewrite firstn_app, Nat.sub_diag, firstn_all. cbn [firstn]. apply app_nil_r.
Qed.

Lemma nth_error_map_snd (ps : list (f64 * bytes)) (i : nat) (d : bytes) :
  nth_error (map snd ps) i = Some d -> exists ts, nth_error ps i = Some (ts, d).
Proof.
  rewrite nth_error_map. destruct (nth_error ps i) as [[ts d']|]; cbn; [|discriminate].
  intros H. apply some_eq in H. subst. eauto.
Qed.

Lemma prefix_v1 (ps : list (f64 * bytes)) (i : nat) :
  Z.of_nat (length (concat (firstn i (map (fun p => v1_layout (fst p) (snd p)) ps))))
  = sum_Z (map v1_size (firstn i (map snd ps))).
Proof.
  rewrite !firstn_map, map_map.
  apply (length_concat_map (fun p => v1_layout (fst p) (snd p)) (fun p => v1_size (snd p))).
  intros p. apply length_v1_layout.
Qed.

Lemma prefix_v2 (ps : list (f64 * bytes)) (i : nat) :
  Z.of_nat (length (concat (firstn i (map (fun p => v2_layout (snd p)) ps))))
  = sum_Z (map v2_size (firstn i (map snd ps))).
Proof.
  rewrite !firstn_map, map_map.
  apply (length_concat_map (fun p => v2_layout (snd p)) (fun p => v2_size (snd p))).
  intros p. apply length_v2_layout.
Qed.

Lemma off_v1_pos (datas : list bytes) (i : nat) : 0 <= off_v1 datas i.
Proof.
  unfold off_v1. assert (0 <= sum_Z (map v1_size (firstn i datas))); [|lia].
  apply sum_Z_nonneg. intros d. pose proof (v1_size_ge d). lia.
Qed.

Lemma off_v2_pos (datas : list bytes) (i : nat) : 0 <= off_v2 datas i.
Proof.
  unfold off_v2. apply sum_Z_nonneg. intros d. pose proof (v2_size_ge d). lia.
Qed.

(** Entry [i] of a version 1 file, located at [off_v1]. *)
Lemma v1_entry_at (ps : list (f64 * bytes)) (i : nat) (ts : f64) (d : bytes)
    (hdr : bytes) (k len : nat) :
  length hdr = 0x38%nat -> nth_error ps i = Some (ts, d) ->
  (k + len <= length (v1_layout ts d))%nat ->
  slice (hdr ++ concat (map (fun p => v1_layout (fst p) (snd p)) ps))
    (Z.to_nat (off_v1 (map snd ps) i) + k) len
  = slice (v1_layout ts d) k len.
Proof.
  intros Hh Hi Hk.
  rewrite <- (app_nil_r (concat _)).
  replace (Z.to_nat (off_v1 (map snd ps) i)) with
    (length hdr + length (concat (firstn i (map (fun p => v1_layout (fst p) (snd p)) ps))))%nat.
  - apply slice_entry; [|exact Hk]. rewrite nth_error_map, Hi. reflexivity.
  - unfold off_v1. rewrite <- prefix_v1, Hh. lia.
Qed.

(** Entry [i] of a version 2 file, [off_v2] bytes after the header. *)
Lemma v2_entry_at (ps : list (f64 * bytes)) (i : nat) (d : bytes) (ts : f64)
    (hdr tl : bytes) (k len : nat) :
  length hdr = 0x20%nat -> nth_error ps i = Some (ts, d) ->
  (k + len <= length (v2_layout d))%nat ->
  slice (hdr ++ concat (map (fun p => v2_layout (snd p)) ps) ++ tl)
    (0x20 + Z.to_nat (off_v2 (map snd ps) i) + k) len
  = slice (v2_layout d) k len.
Proof.
  intros Hh Hi Hk.
  replace (0x20 + Z.to_nat (off_v2 (map snd ps) i))%nat with
    (length hdr + length (concat (firstn i (map (fun p => v2_layout (snd p)) ps))))%nat.
  - apply slice_entry; [|exact Hk]. rewrite nth_error_map, Hi. reflexivity.
  - unfold off_v2. rewrite <- prefix_v2, Hh. lia.
Qed.

Lemma le_value_crc (d : bytes) : le_value (le_bytes 4 (crc32 d)) = crc32 d.
Proof. apply le_value_le32, crc32_bound. Qed.

Lemma encode_v1_split (eds : list entry) (out : bytes) :
  encode_v1 eds = Some out ->
  exists ps hdr, Forall2 (fun ed p => entry_parts ed p /\ data_len (snd p) < 2 ^ 32) eds ps
    /\ length hdr = 0x38%nat
    /\ out = hdr ++ concat (map (fun p => v1_layout (fst p) (snd p)) ps).
Proof.
  intros H. apply encode_v1_shape in H as (ps & Hps & _ & ->).
  exists ps, (le_bytes 4 (0x38 + sum_Z (map v1_size (map snd ps))) ++ zeros 48 ++ SEGB).
  split; [exact Hps|]. split; [|rewrite <- !app_assoc; reflexivity].
  rewrite !length_app, length_le_bytes, length_zeros. reflexivity.
Qed.

Lemma encode_v2_split (now : datetime) (eds : list entry) (out : bytes) :
  encode_v2 now eds = Some out ->
  exists ps hdr tl, Forall2 entry_parts eds ps /\ length hdr = 0x20%nat
    /\ out = hdr ++ concat (map (fun p => v2_layout (snd p)) ps) ++ tl.
Proof.
  intros H. apply encode_v2_shape in H as (cts & ps & _ & Hps & _ & _ & ->).
  exists ps, (SEGB ++ le_bytes 4 (Z.of_nat (length eds)) ++ pack_d cts ++ zeros 16),
    (concat (map info_bytes (trailer_infos 0 ps))).
  split; [exact Hps|]. split; [|rewrite <- !app_assoc; reflexivity].
  unfold pack_d. rewrite !length_app, !length_le_bytes, length_zeros. reflexivity.
Qed.

(** * Checksums *)

(** C3. In both versions the stored checksum of every entry is the CRC32 of
    exactly the entry's raw data bytes (the bytes right after the entry's
    fixed fields, without padding). *)
Theorem checksum_of_raw_data :
  (forall eds out, encode_v1 eds = Some out ->
    exists datas, Forall2 (fun ed d => utf8_encode (text ed) = Some d) eds datas
    /\ forall i d, nth_error datas i = Some d ->
       le_value (slice out (Z.to_nat (off_v1 datas i) + 0x18) 4) = crc32 d
       /\ slice out (Z.to_nat (off_v1 datas i) + 0x20) (length d) = d)
  /\ (forall now eds out, encode_v2 now eds = Some out ->
    exists datas, Forall2 (fun ed d => utf8_encode (text ed) = Some d) eds datas
    /\ forall i d, nth_error datas i = Some d ->
       le_value (slice out (0x20 + Z.to_nat (off_v2 datas i)) 4) = crc32 d
       /\ slice out (0x20 + Z.to_nat (off_v2 datas i) + 8) (length d) = d).
Proof.
  split.
  - intros eds out H. apply encode_v1_split in H as (ps & hdr & Hps & Hh & ->).
    exists (map snd ps). split.
    { revert Hps. apply Forall2_texts. intros ed p [[_ Hd] _]. exact Hd. }
    intros i d Hi. apply nth_error_map_snd in Hi as [ts Hi].
    pose proof (length_v1_layout ts d) as HL. unfold v1_size, data_len in HL.
    pose proof (pad_len_bound (0x20 + data_len d) 8 ltac:(lia)).
    unfold data_len in *.
    destruct (v1_layout_fields ts d) as (_ & _ & _ & _ & Hc & _ & Hd).
    rewrite !(v1_entry_at ps i ts d hdr) by (auto; lia).
    split; [now rewrite Hc, le_value_crc | exact Hd].
  - intros now eds out H. apply encode_v2_split in H as (ps & hdr & tl & Hps & Hh & ->).
    exists (map snd ps). split.
    { revert Hps. apply Forall2_texts. intros ed p [_ Hd]. exact Hd. }
    intros i d Hi. apply nth_error_map_snd in Hi as [ts Hi].
    pose proof (length_v2_layout d) as HL. unfold v2_size, data_len in HL.
    pose proof (pad_len_bound (8 + data_len d) 4 ltac:(lia)).
    unfold data_len in *.
    destruct (v2_layout_fields d) as (Hc & _ & Hd).
    rewrite <- (Nat.add_0_r (0x20 + Z.to_nat (off_v2 (map snd ps) i))) at 1.
    rewrite !(v2_entry_at ps i d ts hdr tl) by (auto; lia).
    split; [now rewrite Hc, le_value_crc | exact Hd].
Qed.

(** * Padding *)

Lemma v1_layout_split (ts : f64) (d : bytes) :
  v1_layout ts d =
  (le_bytes 4 (data_len d) ++ le_bytes 4 WRITTEN ++ pack_d ts ++ pack_d ts
   ++ le_bytes 4 (crc32 d) ++ zeros 4 ++ d)
  ++ zeros (Z.to_nat (pad_len (0x20 + data_len d) 8)).
Proof. unfold v1_layout. now rewrite <- !app_assoc. Qed.

Lemma v2_layout_split (d : bytes) :
  v2_layout d =
  (le_bytes 4 (crc32 d) ++ zeros 4 ++ d) ++ zeros (Z.to_nat (pad_len (8 + data_len d) 4)).
Proof. unfold v2_layout. now rewrite <- !app_assoc. Qed.

(** C4. Each entry is its unpadded bytes followed by
    [(align - size % align) % align] zero bytes (align 8 in version 1, 4 in
    version 2): none when the size is already aligned, and the padded size
    is a multiple of the alignment. *)
Theorem padding_to_alignment :
  (forall ed e, entry_v1 ed = Some e ->
    exists d, utf8_encode (text ed) = Some d
    /\ firstn (Z.to_nat (0x20 + data_len d)) e
         ++ zeros (Z.to_nat ((8 - (0x20 + data_len d) mod 8) mod 8)) = e
    /\ Z.of_nat (length e) = 0x20 + data_len d + (8 - (0x20 + data_len d) mod 8) mod 8
    /\ ((0x20 + data_len d) mod 8 = 0 -> (8 - (0x20 + data_len d) mod 8) mod 8 = 0)
    /\ Z.of_nat (length e) mod 8 = 0)
  /\ (forall ed e ts, entry_v2 ed = Some (e, ts) ->
    exists d, utf8_encode (text ed) = Some d
    /\ firstn (Z.to_nat (8 + data_len d)) e
         ++ zeros (Z.to_nat ((4 - (8 + data_len d) mod 4) mod 4)) = e
    /\ Z.of_nat (length e) = 8 + data_len d + (4 - (8 + data_len d) mod 4) mod 4
    /\ ((8 + data_len d) mod 4 = 0 -> (4 - (8 + data_len d) mod 4) mod 4 = 0)
    /\ Z.of_nat (length e) mod 4 = 0).
Proof.
  split.
  - intros ed e H. apply entry_v1_shape in H as (ts & d & _ & Hd & _ & ->).
    exists d. split; [exact Hd|].
    pose proof (length_v1_layout ts d) as HL. unfold v1_size in HL.
    rewrite v1_layout_split in *. fold (pad_len (0x20 + data_len d) 8).
    assert (Hu : length (le_bytes 4 (data_len d) ++ le_bytes 4 WRITTEN ++ pack_d ts
                 ++ pack_d ts ++ le_bytes 4 (crc32 d) ++ zeros 4 ++ d)
                 = Z.to_nat (0x20 + data_len d)).
    { unfold pack_d, data_len. rewrite !length_app, !length_le_bytes, length_zeros. lia. }
    rewrite <- Hu, firstn_app, Nat.sub_diag, firstn_all. cbn [firstn]. rewrite app_nil_r.
    split; [reflexivity|]. rewrite HL. fold (data_len d). split; [unfold pad_len; lia|].
    split; [intros E; unfold pad_len; rewrite E; reflexivity | apply pad_len_aligned; lia].
  - intros ed e ts H. apply entry_v2_shape in H as (d & _ & Hd & ->).
    exists d. split; [exact Hd|].
    pose proof (length_v2_layout d) as HL. unfold v2_size in HL.
    rewrite v2_layout_split in *. fold (pad_len (8 + data_len d) 4).
    assert (Hu : length (le_bytes 4 (crc32 d) ++ zeros 4 ++ d) = Z.to_nat (8 + data_len d)).
    { unfold data_len. rewrite !length_app, !length_le_bytes, length_zeros. lia. }
    rewrite <- Hu, firstn_app, Nat.sub_diag, firstn_all. cbn [firstn]. rewrite app_nil_r.
    split; [reflexivity|]. rewrite HL. fold (data_len d). split; [unfold pad_len; lia|].
    split; [intros E; unfold pad_len; rewrite E; reflexivity | apply pad_len_aligned; lia].
Qed.

(** * Version 1 entry header *)

(** C5. The 32-byte header of a version 1 entry holds, little-endian and in
    this order: the data length (u32), the state 1 (i32), the timestamp
    twice (f64), the CRC32 of the data (u32) and 4 zero bytes; the timestamp
    is [get_timestamp] of the entry's date, the float of the microseconds
    elapsed since 2001-01-01T00:00:00 UTC divided by [10**6]. *)
Theorem v1_entry_header (ed : entry) (e : bytes) :
  entry_v1 ed = Some e ->
  exists d ts, utf8_encode (text ed) = Some d
    /\ get_timestamp (date ed) = Some ts
    /\ le_value (slice e 0x00 4) = data_len d
    /\ le_value (slice e 0x04 4) = WRITTEN
    /\ slice e 0x08 8 = pack_d ts
    /\ slice e 0x10 8 = pack_d ts
    /\ le_value (slice e 0x18 4) = crc32 d
    /\ slice e 0x1C 4 = zeros 4.
Proof.
  intros H. apply entry_v1_shape in H as (ts & d & Hts & Hd & Hlen & ->).
  exists d, ts. split; [exact Hd|]. split; [exact Hts|].
  destruct (v1_layout_fields ts d) as (H0 & H4 & H8 & H16 & H24 & H28 & _).
  rewrite H0, H4, H8, H16, H24, H28, le_value_crc, !le_value_le32.
  - repeat split; reflexivity.
  - unfold WRITTEN. lia.
  - unfold data_len in *. lia.
Qed.

(** * Version 2 header *)

(** C6. A version 2 file starts with "SEGB", the number of entries (u32),
    the creation timestamp taken from the clock (f64) and 16 zero bytes. *)
Theorem v2_header (now : datetime) (eds : list entry) (out : bytes) :
  encode_v2 now eds = Some out ->
  exists cts, get_timestamp now = Some cts
    /\ slice out 0x00 4 = SEGB
    /\ le_value (slice out 0x04 4) = Z.of_nat (length eds)
    /\ slice out 0x08 8 = pack_d cts
    /\ slice out 0x10 16 = zeros 16.
Proof.
  intros H. apply encode_v2_shape in H as (cts & ps & Hn & _ & Hc & _ & ->).
  exists cts. split; [exact Hn|].
  set (rest := concat (map (fun p => v2_layout (snd p)) ps) ++ _).
  assert (E : slice (SEGB ++ le_bytes 4 (Z.of_nat (length eds)) ++ pack_d cts
                     ++ zeros 16 ++ rest) 0x04 4 = le_bytes 4 (Z.of_nat (length eds))).
  { unfold slice. cbn [skipn firstn SEGB app le_bytes]. reflexivity. }
  rewrite E, le_value_le32 by lia.
  unfold slice, pack_d. cbn [skipn firstn SEGB app le_bytes zeros repeat].
  repeat split; reflexivity.
Qed.

(** * Version 2 trailer *)

Lemma off_v2_succ (datas : list bytes) (i : nat) (d : bytes) :
  nth_error datas i = Some d -> off_v2 datas (S i) = off_v2 datas i + v2_size d.
Proof.
  unfold off_v2. revert i. induction datas as [|d0 datas IH]; intros [|i] H;
    cbn [nth_error] in H; try discriminate.
  - apply some_eq in H. subst. cbn [firstn map]. rewrite sum_Z_cons, sum_Z_nil. lia.
  - rewrite !firstn_cons, !map_cons, !sum_Z_cons, (IH i H). lia.
Qed.

Lemma off_v2_all (datas : list bytes) :
  off_v2 datas (length datas) = sum_Z (map v2_size datas).
Proof. unfold off_v2. now rewrite firstn_all. Qed.

Lemma off_v2_zero (datas : list bytes) : off_v2 datas 0 = 0.
Proof. reflexivity. Qed.

Lemma nth_trailer_infos (ps : list (f64 * bytes)) :
  forall cur i ts d, nth_error ps i = Some (ts, d) ->
  nth_error (trailer_infos cur ps) i = Some (mk_info (cur + off_v2 (map snd ps) i) WRITTEN ts).
Proof.
  induction ps as [|p ps IH]; intros cur [|i] ts d H; cbn [nth_error] in H;
    try discriminate.
  - apply some_eq in H. subst p. cbn [trailer_infos nth_error fst].
    rewrite off_v2_zero, Z.add_0_r. reflexivity.
  - cbn [trailer_infos nth_error]. rewrite (IH _ i ts d H). f_equal. f_equal.
    unfold off_v2. cbn [map firstn]. rewrite sum_Z_cons. lia.
Qed.

Lemma length_trailer_infos (ps : list (f64 * bytes)) :
  forall cur, length (trailer_infos cur ps) = length ps.
Proof.
  induction ps as [|p ps IH]; intros cur; cbn [trailer_infos length]; [reflexivity|].
  now rewrite IH.
Qed.

Lemma length_info_bytes (inf : trailer_info) : length (info_bytes inf) = 16%nat.
Proof.
  unfold info_bytes, pack_d. rewrite !length_app, !length_le_bytes. reflexivity.
Qed.

Lemma length_trailer (infos : list trailer_info) :
  length (concat (map info_bytes infos)) = (16 * length infos)%nat.
Proof.
  induction infos as [|inf infos IH]; [reflexivity|].
  cbn [map concat length]. rewrite length_app, IH, length_info_bytes. lia.
Qed.

Lemma slice_trailer (infos : list trailer_info) (i : nat) (inf : trailer_info) :
  nth_error infos i = Some inf ->
  slice (concat (map info_bytes infos)) (16 * i) 16 = info_bytes inf.
Proof.
  intros H.
  assert (Hi : nth_error (map info_bytes infos) i = Some (info_bytes inf))
    by (rewrite nth_error_map, H; reflexivity).
  pose proof (slice_entry [] (map info_bytes infos) [] i (info_bytes inf) 0 16 Hi
                (eq_ind_r (fun n => (0 + 16 <= n)%nat) (le_n _) (length_info_bytes inf))) as E.
  rewrite app_nil_r in E. cbn [app length] in E.
  rewrite firstn_map, length_trailer, Nat.add_0_r, length_firstn in E.
  assert (Hlt : (i < length infos)%nat) by (apply nth_error_Some; congruence).
  replace (0 + 16 * Nat.min i (length infos))%nat with (16 * i)%nat in E by lia.
  rewrite E. unfold slice. cbn [skipn]. rewrite <- (length_info_bytes inf). apply firstn_all.
Qed.

Lemma entry_parts_functional (eds : list entry) (ps qs : list (f64 * bytes)) :
  Forall2 entry_parts eds ps -> Forall2 entry_parts eds qs -> ps = qs.
Proof.
  intros Hp. revert qs. induction Hp as [|ed p eds ps [Ht Hd] _ IH];
    intros qs Hq; inversion Hq as [|ed0 q eds0 qs' [Ht' Hd'] Hr]; subst; [reflexivity|].
  f_equal; [|now apply IH].
  destruct p, q; cbn in *. congruence.
Qed.

Lemma v2_trailer_core (now : datetime) (eds : list entry) (out : bytes) :
  encode_v2 now eds = Some out ->
  exists ps, Forall2 entry_parts eds ps /\ length ps = length eds
    /\ (16 * length eds <= length out)%nat
    /\ Z.of_nat (length out - 16 * length eds) = 0x20 + sum_Z (map v2_size (map snd ps))
    /\ forall i ts d, nth_error ps i = Some (ts, d) ->
       slice out (length out - 16 * length eds + 16 * i) 16
         = info_bytes (mk_info (off_v2 (map snd ps) i) WRITTEN ts)
       /\ 0 <= off_v2 (map snd ps) i < 2 ^ 32
       /\ slice out (0x20 + Z.to_nat (off_v2 (map snd ps) i)) (length (v2_layout d))
          = v2_layout d.
Proof.
  intros H. pose proof H as H'.
  apply encode_v2_split in H' as (ps' & hdr & tl & Hps' & Hh & Hout).
  apply encode_v2_shape in H as (cts & ps & _ & Hps & _ & Hoff & Hout2).
  pose proof (entry_parts_functional eds ps' ps Hps' Hps). subst ps'.
  set (C := concat (map (fun p => v2_layout (snd p)) ps)) in *.
  set (infos := trailer_infos 0 ps) in *.
  assert (Hlen : length ps = length eds) by (symmetry; eapply Forall2_length; eauto).
  assert (HC : Z.of_nat (length C) = sum_Z (map v2_size (map snd ps))).
  { subst C. rewrite map_map.
    apply (length_concat_map (fun p => v2_layout (snd p)) (fun p => v2_size (snd p))).
    intros p. apply length_v2_layout. }
  assert (HT : length (concat (map info_bytes infos)) = (16 * length eds)%nat).
  { rewrite length_trailer. subst infos. rewrite length_trailer_infos. lia. }
  assert (Hlo : length out = (0x20 + length C + 16 * length eds)%nat).
  { rewrite Hout2. unfold pack_d. rewrite !length_app, !length_le_bytes, length_zeros, HT.
    cbn [length SEGB]. lia. }
  exists ps. split; [exact Hps|]. split; [exact Hlen|]. split; [lia|].
  split; [rewrite Hlo, <- HC; lia|].
  intros i ts d Hi.
  pose proof (nth_trailer_infos ps 0 i ts d Hi) as Hn. cbn [Z.add] in Hn.
  split; [|split].
  - rewrite Hlo, Hout2.
    replace (0x20 + length C + 16 * length eds - 16 * length eds + 16 * i)%nat
      with (length (SEGB ++ le_bytes 4 (Z.of_nat (length eds)) ++ pack_d cts ++ zeros 16)
            + (length C + 16 * i))%nat
      by (unfold pack_d; rewrite !length_app, !length_le_bytes, length_zeros;
          cbn [length SEGB]; lia).
    replace (SEGB ++ le_bytes 4 (Z.of_nat (length eds)) ++ pack_d cts ++ zeros 16
             ++ C ++ concat (map info_bytes infos))
      with ((SEGB ++ le_bytes 4 (Z.of_nat (length eds)) ++ pack_d cts ++ zeros 16)
             ++ C ++ concat (map info_bytes infos))
      by (rewrite <- !app_assoc; reflexivity).
    rewrite slice_app_r, slice_app_r. subst infos.
    rewrite slice_trailer with (inf := mk_info (off_v2 (map snd ps) i) WRITTEN ts);
      [reflexivity | exact Hn].
  - rewrite Forall_forall in Hoff. apply (Hoff _ (nth_error_In _ _ Hn)).
  - rewrite Hout. unfold C. rewrite <- (Nat.add_0_r (0x20 + _)).
    rewrite (v2_entry_at ps i d ts hdr tl 0 (length (v2_layout d)) Hh Hi) by lia.
    apply slice_full.
Qed.

Lemma info_fields (off ts : f64) :
  le_value (slice (info_bytes (mk_info off WRITTEN ts)) 0 4) = off mod 2 ^ 32.
Proof.
  unfold info_bytes. cbn [t_offset t_state t_timestamp].
  rewrite <- (length_le_bytes 4 off) at 2. rewrite slice_all, le_value_le_bytes.
  reflexivity.
Qed.

(** C7. A version 2 file ends with exactly [entry_count * 16] trailer
    bytes, starting right after the last entry: record [i] is entry [i]'s
    offset (u32), state (i32) and timestamp (f64), little-endian, and entry
    [i]'s data sits at that offset of the data region. *)
Theorem v2_trailer (now : datetime) (eds : list entry) (out : bytes) :
  encode_v2 now eds = Some out ->
  exists ps, Forall2 entry_parts eds ps
    /\ (16 * length eds <= length out)%nat
    /\ length (skipn (length out - 16 * length eds) out) = (16 * length eds)%nat
    /\ Z.of_nat (length out - 16 * length eds) = 0x20 + sum_Z (map v2_size (map snd ps))
    /\ forall i ts d, nth_error ps i = Some (ts, d) ->
       slice out (length out - 16 * length eds + 16 * i) 16
         = le_bytes 4 (off_v2 (map snd ps) i) ++ le_bytes 4 WRITTEN ++ pack_d ts
       /\ slice out (0x20 + Z.to_nat (off_v2 (map snd ps) i) + 8) (length d) = d.
Proof.
  intros H. pose proof H as H'.
  apply v2_trailer_core in H as (ps & Hps & _ & Hle & HT & Hall).
  exists ps. split; [exact Hps|]. split; [exact Hle|].
  split; [rewrite length_skipn; lia|]. split; [exact HT|].
  intros i ts d Hi. destruct (Hall i ts d Hi) as (Hs & _ & _). split; [exact Hs|].
  apply encode_v2_split in H' as (ps' & hdr & tl & Hps' & Hh & ->).
  pose proof (entry_parts_functional eds ps' ps Hps' Hps). subst ps'.
  pose proof (length_v2_layout d) as HL. unfold v2_size, data_len in HL.
  pose proof (pad_len_bound (8 + data_len d) 4 ltac:(lia)). unfold data_len in *.
  rewrite (v2_entry_at ps i d ts hdr tl) by (auto; lia).
  apply v2_layout_fields.
Qed.

(** C8. The offset in trailer record [i] is relative to the data region
    (the first byte after the 32-byte header): it is the sum of the padded
    sizes of the entries before [i], entry [i] starts there, and the first
    offset is 0. *)
Theorem v2_trailer_offsets (now : datetime) (eds : list entry) (out : bytes) :
  encode_v2 now eds = Some out ->
  exists datas, Forall2 (fun ed d => utf8_encode (text ed) = Some d) eds datas
    /\ (forall i d, nth_error datas i = Some d ->
         le_value (slice out (length out - 16 * length eds + 16 * i) 4)
           = sum_Z (map v2_size (firstn i datas))
         /\ slice out (0x20 + Z.to_nat (sum_Z (map v2_size (firstn i datas))))
                  (Z.to_nat (v2_size d))
            = v2_layout d)
    /\ (eds <> [] -> le_value (slice out (length out - 16 * length eds) 4) = 0).
Proof.
  intros H. apply v2_trailer_core in H as (ps & Hps & Hlen & _ & _ & Hall).
  assert (Hfield : forall i d, nth_error (map snd ps) i = Some d ->
         le_value (slice out (length out - 16 * length eds + 16 * i) 4)
           = off_v2 (map snd ps) i
         /\ slice out (0x20 + Z.to_nat (off_v2 (map snd ps) i)) (Z.to_nat (v2_size d))
            = v2_layout d).
  { intros i d Hi. apply nth_error_map_snd in Hi as [ts Hi].
    destruct (Hall i ts d Hi) as (Hs & Hb & He).
    assert (Hs4 : slice out (length out - 16 * length eds + 16 * i) 4
                  = slice (info_bytes (mk_info (off_v2 (map snd ps) i) WRITTEN ts)) 0 4).
    { rewrite <- Hs. symmetry. apply slice_prefix. lia. }
    rewrite Hs4, info_fields, Z.mod_small by exact Hb. split; [reflexivity|].
    rewrite <- length_v2_layout, Nat2Z.id. exact He. }
  exists (map snd ps). split.
  { revert Hps. apply Forall2_texts. intros ed p [_ Hd]. exact Hd. }
  split; [exact Hfield|].
  intros Hne. destruct ps as [|[ts d] ps].
  - destruct eds; [contradiction | discriminate].
  - destruct (Hfield 0%nat d eq_refl) as [E _].
    rewrite Nat.mul_0_r, Nat.add_0_r in E. rewrite E. reflexivity.
Qed.

(** C10. Trailer offsets grow by at least 8 bytes from one entry to the
    next, and the last entry's offset is at least 8 bytes before the
    trailer (relative to the data region), even for empty data. *)
Theorem v2_offset_gaps (now : datetime) (eds : list entry) (out : bytes) :
  encode_v2 now eds = Some out ->
  (forall i, (S i < length eds)%nat ->
     le_value (slice out (length out - 16 * length eds + 16 * i) 4) + 8
     <= le_value (slice out (length out - 16 * length eds + 16 * S i) 4))
  /\ (forall i, S i = length eds ->
     0x20 + le_value (slice out (length out - 16 * length eds + 16 * i) 4) + 8
     <= Z.of_nat (length out - 16 * length eds)).
Proof.
  intros H. apply v2_trailer_core in H as (ps & _ & Hlen & _ & HT & Hall).
  assert (Hoff : forall i ts d, nth_error ps i = Some (ts, d) ->
    le_value (slice out (length out - 16 * length eds + 16 * i) 4) = off_v2 (map snd ps) i).
  { intros i ts d Hi. destruct (Hall i ts d Hi) as (Hs & Hb & _).
    assert (Hs4 : slice out (length out - 16 * length eds + 16 * i) 4
                  = slice (info_bytes (mk_info (off_v2 (map snd ps) i) WRITTEN ts)) 0 4).
    { rewrite <- Hs. symmetry. apply slice_prefix. lia. }
    rewrite Hs4, info_fields, Z.mod_small by exact Hb. reflexivity. }
  split.
  - intros i Hi.
    destruct (nth_error ps i) as [[ts d]|] eqn:E1;
      [|apply nth_error_None in E1; lia].
    destruct (nth_error ps (S i)) as [[ts' d']|] eqn:E2;
      [|apply nth_error_None in E2; lia].
    rewrite (Hoff _ _ _ E1), (Hoff _ _ _ E2).
    assert (Hd : nth_error (map snd ps) i = Some d) by (rewrite nth_error_map, E1; reflexivity).
    rewrite (off_v2_succ _ _ _ Hd). pose proof (v2_size_ge d). lia.
  - intros i Hi.
    destruct (nth_error ps i) as [[ts d]|] eqn:E1;
      [|apply nth_error_None in E1; lia].
    rewrite (Hoff _ _ _ E1), HT.
    assert (Hd : nth_error (map snd ps) i = Some d) by (rewrite nth_error_map, E1; reflexivity).
    pose proof (off_v2_succ _ _ _ Hd) as Hs.
    assert (Hl : length (map snd ps) = S i) by (rewrite length_map; lia).
    rewrite <- Hl, off_v2_all in Hs. pose proof (v2_size_ge d). lia.
Qed.

(** * Dependence on the clock *)

Lemma nth_error_app_mid (pre x y post : bytes) (i : nat) :
  length x = length y -> (i < length pre \/ length pre + length x <= i)%nat ->
  nth_error (pre ++ x ++ post) i = nth_error (pre ++ y ++ post) i.
Proof.
  intros Hl [Hi|Hi].
  - rewrite !nth_error_app1 by lia. reflexivity.
  - rewrite (nth_error_app2 pre) by lia. rewrite (nth_error_app2 pre) by lia.
    rewrite (nth_error_app2 x) by lia. rewrite (nth_error_app2 y) by lia.
    rewrite Hl. reflexivity.
Qed.

Lemma run_script_Some (eds : list entry) (now : datetime) (a b : bytes) :
  run_script eds now = Some (a, b) -> encode_v1 eds = Some a /\ encode_v2 now eds = Some b.
Proof.
  unfold run_script.
  destruct (encode_v1 eds) as [a'|]; [|discriminate].
  destruct (encode_v2 now eds) as [b'|]; [|discriminate].
  intros H. apply some_eq, pair_eq in H as [-> ->]. split; reflexivity.
Qed.

(** C9. Two runs of the script on the same entries with different clocks
    give the same version 1 file, and version 2 files that agree everywhere
    except in bytes [0x08:0x10) (the creation timestamp). *)
Theorem clock_only_in_creation_timestamp (eds : list entry) (now1 now2 : datetime)
    (a1 b1 a2 b2 : bytes) :
  run_script eds now1 = Some (a1, b1) -> run_script eds now2 = Some (a2, b2) ->
  a1 = a2 /\ length b1 = length b2
  /\ forall i, (i < 0x08 \/ 0x10 <= i)%nat -> nth_error b1 i = nth_error b2 i.
Proof.
  intros H1 H2.
  apply run_script_Some in H1 as [Ha1 Hb1]. apply run_script_Some in H2 as [Ha2 Hb2].
  split; [rewrite Ha1 in Ha2; now apply some_eq in Ha2|].
  apply encode_v2_shape in Hb1 as (c1 & ps1 & _ & Hp1 & _ & _ & ->).
  apply encode_v2_shape in Hb2 as (c2 & ps2 & _ & Hp2 & _ & _ & ->).
  pose proof (entry_parts_functional eds ps1 ps2 Hp1 Hp2). subst ps2.
  rewrite !(app_assoc SEGB).
  assert (Hd : length (pack_d c1) = length (pack_d c2))
    by (unfold pack_d; now rewrite !length_le_bytes).
  split.
  - rewrite !length_app, Hd. reflexivity.
  - intros i Hi. apply nth_error_app_mid; [exact Hd|].
    unfold pack_d. rewrite length_app, !length_le_bytes. cbn [length SEGB]. lia.
Qed.

(** * Reading the files back *)

Ltac nat_tests :=
  repeat match goal with
  | |- context [(?a <=? ?b)%nat] => destruct (Nat.leb_spec a b); [exfalso; lia|]
  | |- context [(?a <? ?b)%nat] => destruct (Nat.ltb_spec a b); [exfalso; lia|]
  end.

Lemma decode_v1_entries_S (fuel : nat) (buf : bytes) (off end_offset : nat) :
  decode_v1_entries (S fuel) buf off end_offset =
  if (end_offset <=? off)%nat then Ok []
  else if (length buf <? off + 0x20)%nat then Err Truncated
  else if (length buf <? off + 0x20 + Z.to_nat (le_value (slice buf off 4)))%nat
  then Err Truncated
  else
    match decode_v1_entries fuel buf
            (off + 0x20 + Z.to_nat (le_value (slice buf off 4))
             + Z.to_nat (pad_len (Z.of_nat (off + 0x20 + Z.to_nat (le_value (slice buf off 4)))) 8))
            end_offset with
    | Ok rs =>
        Ok (mk_record (slice buf (off + 0x20) (Z.to_nat (le_value (slice buf off 4))))
              (i32_of (le_value (slice buf (off + 0x04) 4)))
              (le_value (slice buf (off + 0x08) 8))
              (crc32 (slice buf (off + 0x20) (Z.to_nat (le_value (slice buf off 4))))
                 =? le_value (slice buf (off + 0x18) 4)) :: rs)
    | Err e => Err e
    end.
Proof. reflexivity. Qed.

Lemma pad_len_shift (a n : Z) : a mod 8 = 0 -> pad_len (a + n) 8 = pad_len n 8.
Proof.
  intros H. unfold pad_len. rewrite Z.add_mod, H by lia.
  rewrite Z.add_0_l, Z.mod_mod by lia. reflexivity.
Qed.

Lemma v1_size_aligned (d : bytes) : v1_size d mod 8 = 0.
Proof. unfold v1_size. apply pad_len_aligned. lia. Qed.

Lemma Forall2_right {A B} (P : A -> B -> Prop) (Q : B -> Prop) (l1 : list A) (l2 : list B) :
  (forall a b, P a b -> Q b) -> Forall2 P l1 l2 -> Forall Q l2.
Proof. intros HP H. induction H; constructor; eauto. Qed.

(** The version 1 entry loop of the reader walks the entries the writer
    emitted, from any 8-aligned position. *)
Lemma decode_v1_entries_layout (ps : list (f64 * bytes)) :
  forall (fuel : nat) (pre : bytes),
  Z.of_nat (length pre) mod 8 = 0 -> (length ps < fuel)%nat ->
  Forall (fun p => data_len (snd p) < 2 ^ 32) ps ->
  decode_v1_entries fuel (pre ++ concat (map (fun p => v1_layout (fst p) (snd p)) ps))
    (length pre) (length pre + length (concat (map (fun p => v1_layout (fst p) (snd p)) ps)))
  = Ok (map (fun p => mk_record (snd p) WRITTEN (le_value (pack_d (fst p))) true) ps).
Proof.
  induction ps as [|[ts d] ps IH]; intros fuel pre Hpre Hfuel Hb;
    (destruct fuel as [|fuel]; [cbn [length] in Hfuel; lia|]); rewrite decode_v1_entries_S.
  - cbn [map concat length]. rewrite Nat.add_0_r, Nat.leb_refl. reflexivity.
  - inversion Hb as [|? ? Hd Hb']; subst. cbn [fst snd] in Hd.
    cbn [map concat fst snd].
    set (R := concat (map (fun p => v1_layout (fst p) (snd p)) ps)).
    pose proof (length_v1_layout ts d) as HL.
    pose proof (pad_len_bound (0x20 + data_len d) 8 ltac:(lia)) as Hp.
    unfold v1_size, data_len in HL, Hp, Hd.
    destruct (v1_layout_fields ts d) as (F0 & F4 & F8 & _ & F24 & _ & F32).
    assert (Hs : forall k len, (k + len <= length (v1_layout ts d))%nat ->
      slice (pre ++ v1_layout ts d ++ R) (length pre + k) len = slice (v1_layout ts d) k len)
      by (intros; apply slice_mid; lia).
    assert (E0 : slice (pre ++ v1_layout ts d ++ R) (length pre) 4 = le_bytes 4 (data_len d)).
    { rewrite <- (Nat.add_0_r (length pre)). rewrite Hs by lia. exact F0. }
    rewrite E0, le_value_le32 by (unfold data_len; lia).
    replace (Z.to_nat (data_len d)) with (length d) by (unfold data_len; lia).
    rewrite (Hs 0x20%nat (length d)), F32, (Hs 4%nat 4%nat), F4, (Hs 8%nat 8%nat), F8,
      (Hs 0x18%nat 4%nat), F24 by lia.
    assert (Hl1 : length (v1_layout ts d ++ R) = (length (v1_layout ts d) + length R)%nat)
      by apply length_app.
    assert (Hl2 : length (pre ++ v1_layout ts d ++ R)
                  = (length pre + length (v1_layout ts d) + length R)%nat)
      by (rewrite !length_app; lia).
    nat_tests.
    assert (Hn : (length pre + 0x20 + length d
                  + Z.to_nat (pad_len (Z.of_nat (length pre + 0x20 + length d)) 8))%nat
                 = length (pre ++ v1_layout ts d)).
    { apply Nat2Z.inj. rewrite length_app, !Nat2Z.inj_add, HL, Z2Nat.id by (unfold pad_len; apply Z.mod_pos_bound; lia).
      replace (Z.of_nat (length pre) + Z.of_nat 32 + Z.of_nat (length d))
        with (Z.of_nat (length pre) + (32 + Z.of_nat (length d))) by lia.
      rewrite pad_len_shift by exact Hpre. lia. }
    rewrite Hn, Hl1, Nat.add_assoc, <- (length_app pre (v1_layout ts d)), app_assoc.
    rewrite IH.
    + rewrite le_value_le32, le_value_crc, Z.eqb_refl by (unfold WRITTEN; lia).
      reflexivity.
    + rewrite length_app, Nat2Z.inj_add, HL, Z.add_mod, Hpre by lia.
      pose proof (v1_size_aligned d) as Ha. unfold v1_size, data_len in Ha.
      rewrite Ha. reflexivity.
    + cbn [length] in Hfuel. lia.
    + exact Hb'.
Qed.

Lemma length_concat_v1 (ps : list (f64 * bytes)) :
  (length ps <= length (concat (map (fun p => v1_layout (fst p) (snd p)) ps)))%nat.
Proof.
  induction ps as [|[ts d] ps IH]; [reflexivity|].
  cbn [map concat length fst snd]. rewrite length_app.
  pose proof (length_v1_layout ts d). pose proof (v1_size_ge d). lia.
Qed.

Lemma bytes_eqb_refl (a : bytes) : bytes_eqb a a = true.
Proof. unfold bytes_eqb. destruct (list_eq_dec Byte.byte_eq_dec a a); congruence. Qed.

(** The version 1 reader returns, in order, every entry the writer wrote:
    its data, state 1, its timestamp and a matching checksum. *)
Lemma decode_v1_encode_v1 (eds : list entry) (out : bytes) :
  encode_v1 eds = Some out ->
  exists ps, Forall2 entry_parts eds ps
    /\ decode_v1 out
       = Ok (map (fun p => mk_record (snd p) WRITTEN (le_value (pack_d (fst p))) true) ps).
Proof.
  intros H. apply encode_v1_shape in H as (ps & Hps & Hb & ->).
  exists ps. split; [revert Hps; apply Forall2_impl; tauto|].
  set (R := concat (map (fun p => v1_layout (fst p) (snd p)) ps)).
  set (X := 0x38 + sum_Z (map v1_size (map snd ps))) in *.
  assert (HR : Z.of_nat (length R) = sum_Z (map v1_size (map snd ps))).
  { subst R. rewrite map_map.
    apply (length_concat_map (fun p => v1_layout (fst p) (snd p)) (fun p => v1_size (snd p))).
    intros p. apply length_v1_layout. }
  pose proof (length_concat_v1 ps) as Hn. fold R in Hn.
  set (hdr := le_bytes 4 X ++ zeros 48 ++ SEGB).
  assert (Hh : length hdr = 0x38%nat)
    by (subst hdr; rewrite !length_app, length_le_bytes, length_zeros; reflexivity).
  replace (le_bytes 4 X ++ zeros 48 ++ SEGB ++ R) with (hdr ++ R)
    by (subst hdr; rewrite <- !app_assoc; reflexivity).
  assert (Em : slice (hdr ++ R) 0x34 4 = SEGB)
    by (subst hdr; unfold slice; cbn [skipn firstn le_bytes zeros repeat app SEGB]; reflexivity).
  assert (E0 : slice (hdr ++ R) 0 4 = le_bytes 4 X).
  { subst hdr. pose proof (slice_whole (le_bytes 4 X) (zeros 48 ++ SEGB ++ R)) as E.
    rewrite length_le_bytes in E. rewrite <- !app_assoc. exact E. }
  assert (Hl : length (hdr ++ R) = (0x38 + length R)%nat) by (rewrite length_app; lia).
  unfold decode_v1. rewrite Em, bytes_eqb_refl, E0, le_value_le32, Hl by lia.
  nat_tests.
  replace (Z.to_nat X) with (length hdr + length R)%nat by lia.
  replace 0x38%nat with (length hdr) at 3 by exact Hh.
  apply decode_v1_entries_layout.
  - rewrite Hh. reflexivity.
  - lia.
  - revert Hps. apply Forall2_right. tauto.
Qed.

Lemma map_result_exists {A B} (f : A -> result record) (g : record -> B) (h : A -> B)
    (l : list A) :
  (forall x, In x l -> exists r, f x = Ok r /\ g r = h x) ->
  exists rs, map_result f l = Ok rs /\ map g rs = map h l.
Proof.
  induction l as [|x l IH]; intros H; [exists []; split; reflexivity|].
  destruct (H x (or_introl eq_refl)) as (r & Hr & Hd).
  destruct IH as (rs & Hrs & Hds); [intros y Hy; apply H; right; exact Hy|].
  exists (r :: rs). cbn [map_result map]. rewrite Hr, Hrs, Hd, Hds. split; reflexivity.
Qed.

Lemma map_nth_seq_shift {A B} (h : A -> B) (d0 : A) (l : list A) :
  forall pre, map (fun i => h (nth i (pre ++ l) d0)) (seq (length pre) (length l)) = map h l.
Proof.
  induction l as [|a l IH]; intros pre; [reflexivity|].
  cbn [length seq map]. rewrite nth_middle. f_equal.
  specialize (IH (pre ++ [a])). rewrite <- app_assoc, length_app in IH. cbn [app length] in IH.
  rewrite Nat.add_1_r in IH. exact IH.
Qed.

Lemma map_nth_seq0 {A B} (h : A -> B) (d0 : A) (l : list A) :
  map (fun i => h (nth i l d0)) (seq 0 (length l)) = map h l.
Proof. exact (map_nth_seq_shift h d0 l []). Qed.

Lemma sum_Z_app (a b : list Z) : sum_Z (a ++ b) = sum_Z a + sum_Z b.
Proof. induction a as [|x a IH]; [reflexivity|]. cbn [app]. rewrite !sum_Z_cons, IH. lia. Qed.

Lemma off_v2_le_total (datas : list bytes) (j : nat) :
  0 <= off_v2 datas j <= sum_Z (map v2_size datas).
Proof.
  unfold off_v2. rewrite <- (firstn_skipn j datas) at 3. rewrite map_app, sum_Z_app.
  pose proof (sum_Z_nonneg v2_size (firstn j datas)) as H1.
  pose proof (sum_Z_nonneg v2_size (skipn j datas)) as H2.
  assert (forall d, 0 <= v2_size d) by (intros d; pose proof (v2_size_ge d); lia).
  specialize (H1 H). specialize (H2 H). lia.
Qed.

Lemma v2_layout_tail (d : bytes) :
  slice (v2_layout d) 8 (length (v2_layout d) - 8)
  = d ++ zeros (Z.to_nat (pad_len (8 + data_len d) 4)).
Proof.
  assert (E : v2_layout d = (le_bytes 4 (crc32 d) ++ zeros 4)
                            ++ (d ++ zeros (Z.to_nat (pad_len (8 + data_len d) 4))))
    by (unfold v2_layout; rewrite <- !app_assoc; reflexivity).
  assert (H8 : length (le_bytes 4 (crc32 d) ++ zeros 4) = 8%nat)
    by (rewrite length_app, length_le_bytes, length_zeros; reflexivity).
  rewrite E, length_app, H8, Nat.add_comm, Nat.add_sub.
  rewrite <- H8 at 1. rewrite <- (Nat.add_0_r (length _)), slice_app_r.
  apply slice_full.
Qed.

(** The magic and the entry count of a version 2 file. *)
Lemma v2_magic_count (now : datetime) (eds : list entry) (out : bytes) :
  encode_v2 now eds = Some out ->
  slice out 0 4 = SEGB /\ le_value (slice out 4 4) = Z.of_nat (length eds)
  /\ (0x20 + 16 * length eds <= length out)%nat.
Proof.
  intros H. apply encode_v2_shape in H as (cts & ps & _ & Hps & Hc & _ & ->).
  set (rest := concat (map (fun p => v2_layout (snd p)) ps) ++ _).
  assert (E : slice (SEGB ++ le_bytes 4 (Z.of_nat (length eds)) ++ pack_d cts
                     ++ zeros 16 ++ rest) 4 4 = le_bytes 4 (Z.of_nat (length eds))).
  { unfold slice. cbn [skipn firstn SEGB app le_bytes]. reflexivity. }
  rewrite E, le_value_le32 by lia. split; [reflexivity|]. split; [reflexivity|].
  subst rest. unfold pack_d.
  rewrite !length_app, !length_le_bytes, length_zeros, length_trailer, length_trailer_infos.
  rewrite <- (Forall2_length Hps). cbn [length SEGB]. lia.
Qed.

(** The offset stored in trailer record [i]. *)
Lemma v2_trailer_offset_value (now : datetime) (eds : list entry) (out : bytes)
    (ps : list (f64 * bytes)) :
  encode_v2 now eds = Some out -> Forall2 entry_parts eds ps ->
  forall i ts d, nth_error ps i = Some (ts, d) ->
  le_value (slice out (length out - 16 * length eds + 16 * i) 4) = off_v2 (map snd ps) i.
Proof.
  intros H Hps. apply v2_trailer_core in H as (ps' & Hps' & _ & _ & _ & Hall).
  pose proof (entry_parts_functional eds ps' ps Hps' Hps). subst ps'.
  intros i ts d Hi. destruct (Hall i ts d Hi) as (Hs & Hb & _).
  assert (Hs4 : slice out (length out - 16 * length eds + 16 * i) 4
                = slice (info_bytes (mk_info (off_v2 (map snd ps) i) WRITTEN ts)) 0 4).
  { rewrite <- Hs. symmetry. apply slice_prefix. lia. }
  rewrite Hs4, info_fields, Z.mod_small by exact Hb. reflexivity.
Qed.

Lemma slice_slice (b : bytes) (off len k m : nat) :
  (k + m <= len)%nat -> slice (slice b off len) k m = slice b (off + k) m.
Proof.
  intros H. unfold slice. rewrite skipn_firstn_comm, firstn_firstn, skipn_skipn.
  f_equal; [lia|]. f_equal. lia.
Qed.

Lemma slice_v2_checksum (d : bytes) : slice (v2_layout d) 0 4 = le_bytes 4 (crc32 d).
Proof.
  unfold v2_layout. rewrite <- (length_le_bytes 4 (crc32 d)) at 2. apply slice_all.
Qed.

(** The version 2 reader returns, for each entry the writer wrote, its
    padded data with the trailing zero bytes removed, and the checksum flag
    of that data against the entry's checksum. *)
Lemma decode_v2_encode_v2 (now : datetime) (eds : list entry) (out : bytes) :
  encode_v2 now eds = Some out ->
  exists ps, Forall2 entry_parts eds ps
    /\ exists rs, decode_v2 out = Ok rs
       /\ map (fun r => (r_data r, r_valid r)) rs
          = map (fun p =>
               let s := strip_padding (snd p ++ zeros (Z.to_nat (pad_len (8 + data_len (snd p)) 4))) in
               (s, crc32 s =? crc32 (snd p))) ps.
Proof.
  intros H. pose proof H as Hc. apply v2_magic_count in Hc as (Hm & Hn & Hlo).
  pose proof H as Ht. apply v2_trailer_core in Ht as (ps & Hps & Hlen & _ & HT & Hall).
  exists ps. split; [exact Hps|].
  unfold decode_v2. cbv beta zeta.
  rewrite Hm, bytes_eqb_refl, Hn, Nat2Z.id. cbn [negb].
  nat_tests.
  set (pad := fun d => let s := strip_padding (d ++ zeros (Z.to_nat (pad_len (8 + data_len d) 4))) in
                       (s, crc32 s =? crc32 d)).
  match goal with
  | |- exists rs, map_result ?f ?l = Ok rs /\ _ =>
      destruct (map_result_exists f (fun r => (r_data r, r_valid r))
                  (fun i => pad (nth i (map snd ps) [])) l)
        as (rs & Hrs & Hd)
  end.
  2:{ exists rs. split; [exact Hrs|]. rewrite Hd, <- Hlen, <- (length_map snd ps).
      rewrite (map_nth_seq0 pad), map_map. reflexivity. }
  intros i Hi. apply in_seq in Hi.
  destruct (nth_error ps i) as [[ts d]|] eqn:Ei; [|apply nth_error_None in Ei; lia].
  assert (Hdi : nth_error (map snd ps) i = Some d) by (rewrite nth_error_map, Ei; reflexivity).
  rewrite (v2_trailer_offset_value now eds out ps H Hps i ts d Ei).
  pose proof (off_v2_succ _ _ _ Hdi) as Hsucc.
  pose proof (off_v2_le_total (map snd ps) (S i)) as Hle.
  pose proof (off_v2_le_total (map snd ps) i) as Hle0.
  pose proof (v2_size_ge d) as Hge.
  pose proof (length_v2_layout d) as HL.
  assert (Hnext : (if (S i <? length eds)%nat
                   then Z.to_nat (le_value (slice out (length out - 16 * length eds + 16 * S i) 4))
                   else (length out - 16 * length eds - 32)%nat)
                  = Z.to_nat (off_v2 (map snd ps) (S i))).
  { destruct (Nat.ltb_spec (S i) (length eds)).
    - destruct (nth_error ps (S i)) as [[ts' d']|] eqn:Ei';
        [|apply nth_error_None in Ei'; lia].
      rewrite (v2_trailer_offset_value now eds out ps H Hps (S i) ts' d' Ei'). reflexivity.
    - assert (Hl : length (map snd ps) = S i) by (rewrite length_map; lia).
      rewrite <- Hl, off_v2_all. lia. }
  rewrite Hnext. nat_tests.
  eexists. split; [reflexivity|]. cbn [r_data r_valid]. subst pad. cbv beta zeta.
  rewrite (nth_error_nth _ _ _ Hdi).
  destruct (Hall i ts d Ei) as (_ & _ & Hlay).
  replace (Z.to_nat (off_v2 (map snd ps) (S i)) - Z.to_nat (off_v2 (map snd ps) i) - 8)%nat
    with (length (v2_layout d) - 8)%nat by lia.
  rewrite <- (slice_slice out (32 + Z.to_nat (off_v2 (map snd ps) i)) (length (v2_layout d)))
    by lia.
  assert (Hck : slice out (32 + Z.to_nat (off_v2 (map snd ps) i)) 4 = le_bytes 4 (crc32 d)).
  { rewrite <- slice_v2_checksum, <- Hlay, slice_slice by lia. f_equal. lia. }
  rewrite Hck, le_value_crc, Hlay, v2_layout_tail. reflexivity.
Qed.

(** The two collision inputs give the same version 2 file. *)
Lemma collision_v2 :
  exists out, encode_v2 clock_a collision_a = Some out
    /\ encode_v2 clock_a collision_b = Some out
    /\ utf8_encode collision_text_a = Some (map b_of_Z collision_text_a)
    /\ utf8_encode collision_text_b = Some (map b_of_Z collision_text_b).
Proof.
  destruct (encode_v2 clock_a collision_a) as [o|] eqn:Ha;
    [|vm_compute in Ha; discriminate].
  exists o. split; [reflexivity|]. split; [rewrite <- Ha; vm_compute; reflexivity|].
  split; vm_compute; reflexivity.
Qed.

(** * Round trip *)

(** C1 (counterexample). Two one-entry inputs whose data differ (by a
    trailing zero byte) encode to the same version 2 file. A reader is a
    function of the bytes, so it returns the same records for both and gets
    one input's data wrong: the version 2 round trip fails. *)
Theorem v2_collision_counterexample :
  exists out, encode_v2 clock_a collision_a = Some out
    /\ encode_v2 clock_a collision_b = Some out
    /\ Forall2 (fun ed d => utf8_encode (text ed) = Some d)
         collision_a [map b_of_Z collision_text_a]
    /\ Forall2 (fun ed d => utf8_encode (text ed) = Some d)
         collision_b [map b_of_Z collision_text_b]
    /\ map b_of_Z collision_text_a <> map b_of_Z collision_text_b.
Proof.
  destruct collision_v2 as (o & Ha & Hb & Ta & Tb).
  exists o. split; [exact Ha|]. split; [exact Hb|].
  split; [constructor; [exact Ta | constructor]|].
  split; [constructor; [exact Tb | constructor]|].
  intros C. vm_compute in C. discriminate.
Qed.

(** Hence no reader recovers version 2 data byte for byte for every input:
    whatever function reads the data back, it fails on [collision_a] or on
    [collision_b]. *)
Lemma no_v2_decoder_round_trip :
  forall decode : bytes -> list bytes,
  exists eds out datas,
    encode_v2 clock_a eds = Some out
    /\ Forall2 (fun ed d => utf8_encode (text ed) = Some d) eds datas
    /\ decode out <> datas.
Proof.
  intros decode. destruct collision_v2 as (o & Ha & Hb & Ta & Tb).
  destruct (list_eq_dec (list_eq_dec Byte.byte_eq_dec) (decode o)
              [map b_of_Z collision_text_a]) as [E|E].
  - exists collision_b, o, [map b_of_Z collision_text_b].
    split; [exact Hb|]. split; [constructor; [exact Tb | constructor]|].
    rewrite E. intros C. vm_compute in C. discriminate.
  - exists collision_a, o, [map b_of_Z collision_text_a].
    split; [exact Ha|]. split; [constructor; [exact Ta | constructor]|]. exact E.
Qed.

Lemma drop_zeros_zeros (k j : nat) (l : bytes) :
  (k <= j)%nat -> drop_zeros j (zeros k ++ l) = drop_zeros (j - k) l.
Proof.
  revert j. induction k as [|k IH]; intros j Hk.
  - rewrite Nat.sub_0_r. reflexivity.
  - destruct j as [|j]; [lia|]. cbn [zeros repeat app drop_zeros Nat.sub].
    apply IH. lia.
Qed.

Lemma drop_zeros_nonzero (j : nat) (b : byte) (l : bytes) :
  b <> x00 -> drop_zeros j (b :: l) = b :: l.
Proof.
  intros Hb. destruct j as [|j]; [reflexivity|]. cbn [drop_zeros].
  destruct (Byte.eqb b x00) eqn:E; [|reflexivity].
  exfalso. apply Hb. apply Byte.byte_dec_bl. exact E.
Qed.

(** Removing the padding from data followed by at most three zero bytes
    gives the data back, when the data is empty or ends in a nonzero byte. *)
Lemma strip_padding_exact (d : bytes) (k : nat) :
  (k <= 3)%nat -> d = [] \/ last d x00 <> x00 -> strip_padding (d ++ zeros k) = d.
Proof.
  intros Hk Hd. unfold strip_padding. rewrite rev_app_distr.
  replace (rev (zeros k)) with (zeros k) by (unfold zeros; now rewrite rev_repeat).
  rewrite drop_zeros_zeros by exact Hk.
  destruct Hd as [-> | Hd]; [destruct (3 - k)%nat; reflexivity|].
  assert (Hne : d <> []) by (intros ->; apply Hd; reflexivity).
  pose proof (app_removelast_last x00 Hne) as Ed.
  set (b := last d x00) in *. set (l := removelast d) in *. clearbody b l.
  rewrite Ed, rev_app_distr. cbn [rev app].
  rewrite drop_zeros_nonzero by exact Hd. cbn [rev]. rewrite rev_involutive. reflexivity.
Qed.

Lemma map_eq_Forall2 {A B C} (f : A -> C) (g : B -> C) (l1 : list A) (l2 : list B) :
  map f l1 = map g l2 -> Forall2 (fun a b => f a = g b) l1 l2.
Proof.
  revert l2. induction l1 as [|a l1 IH]; intros [|b l2] H; cbn in H; try discriminate.
  - constructor.
  - injection H as H1 H2. constructor; [exact H1 | apply IH; exact H2].
Qed.

(** C1 (amended). Reading a version 1 file as the format describes gives
    back every record's data byte for byte, in order, with state 1 and a
    matching checksum.  Reading a version 2 file gives one record per entry,
    in order; a record's data is the entry's data byte for byte, with a
    matching checksum, whenever that data is empty or does not end in a zero
    byte.  The version 2 round trip cannot hold for every input: two inputs
    whose data differ by a trailing zero byte produce the same file. *)
Theorem round_trip_v1_v2_exact :
  (forall eds out, encode_v1 eds = Some out ->
     exists datas, Forall2 (fun ed d => utf8_encode (text ed) = Some d) eds datas
       /\ exists rs, decode_v1 out = Ok rs /\ map r_data rs = datas
          /\ Forall (fun r => r_state r = WRITTEN /\ r_valid r = true) rs)
  /\ (forall now eds out, encode_v2 now eds = Some out ->
     exists datas, Forall2 (fun ed d => utf8_encode (text ed) = Some d) eds datas
       /\ exists rs, decode_v2 out = Ok rs
          /\ Forall2 (fun r d => d = [] \/ last d x00 <> x00 ->
                                 r_data r = d /\ r_valid r = true) rs datas)
  /\ (exists now eds1 eds2 out d1 d2,
       encode_v2 now eds1 = Some out /\ encode_v2 now eds2 = Some out
       /\ Forall2 (fun ed d => utf8_encode (text ed) = Some d) eds1 [d1]
       /\ Forall2 (fun ed d => utf8_encode (text ed) = Some d) eds2 [d2]
       /\ d1 <> d2).
Proof.
  split; [|split].
  - intros eds out H. apply decode_v1_encode_v1 in H as (ps & Hps & Hd).
    exists (map snd ps). split.
    + revert Hps. apply Forall2_texts. intros ed p [_ Hx]. exact Hx.
    + eexists. split; [exact Hd|]. rewrite map_map. split; [reflexivity|].
      apply Forall_forall. intros r Hr. apply in_map_iff in Hr as (p & <- & _).
      split; reflexivity.
  - intros now eds out H. apply decode_v2_encode_v2 in H as (ps & Hps & rs & Hd & Hr).
    exists (map snd ps). split.
    + revert Hps. apply Forall2_texts. intros ed p [_ Hx]. exact Hx.
    + exists rs. split; [exact Hd|].
      rewrite <- (map_id (map snd ps)), map_map in *.
      apply map_eq_Forall2 in Hr.
      clear -Hr. induction Hr as [|r p rs ps Hrp _ IH]; constructor; [|exact IH].
      intros Hc. cbv zeta in Hrp. destruct p as [ts d]. cbn [snd] in *.
      pose proof (pad_len_bound (8 + data_len d) 4 ltac:(lia)) as Hb.
      rewrite strip_padding_exact in Hrp by (exact Hc || lia).
      injection Hrp as -> ->. split; [reflexivity | apply Z.eqb_refl].
  - destruct collision_v2 as (o & Ha & Hb & Ta & Tb).
    exists clock_a, collision_a, collision_b, o,
      (map b_of_Z collision_text_a), (map b_of_Z collision_text_b).
    split; [exact Ha|]. split; [exact Hb|].
    split; [constructor; [exact Ta | constructor]|].
    split; [constructor; [exact Tb | constructor]|].
    intros C. vm_compute in C. discriminate.
Qed.

(** * Checks of the primitives against Python *)

(** [binascii.crc32(b'123456789')] is 0xCBF43926. *)
Example crc32_check : crc32 (map b_of_Z [49; 50; 51; 52; 53; 54; 55; 56; 57]) = 3421780262.
Proof. vm_compute. reflexivity. Qed.

(** [get_timestamp] of 2007-01-09 is 189993600.0, bits 0x41A6A5E3_00000000. *)
Example get_timestamp_check :
  get_timestamp (mk_datetime 2007 1 9 0 0 0 0) = Some 4730651136443285504.
Proof. vm_compute. reflexivity. Qed.

(** Before the base date the timestamp is negative: -31622400.5. *)
Example get_timestamp_negative_check :
  get_timestamp (mk_datetime 1999 12 31 23 59 59 500000)
  = Some (-4504118253127204864 + 2 ^ 64).
Proof. vm_compute. reflexivity. Qed.

(** The creation timestamp for [clock_a], 2024-05-01T12:30:15.25. *)
Example creation_timestamp_check :
  slice sample_v2 8 8 = pack_d 4739459399987232768.
Proof. vm_compute. reflexivity. Qed.

(** * Instances on the script's sample data *)

Lemma v1_end_offset_witness :
  encode_v1 Sample.entries_data = Some sample_v1
 
      /\ exists datas, Forall2 (fun ed d => utf8_encode (text ed) = Some d) Sample.entries_data datas
      /\ le_value (slice sample_v1 0 4) = 0x38 + sum_Z (map v1_size datas)
      /\ Z.of_nat (length sample_v1) = le_value (slice sample_v1 0 4).
Proof.
  assert (E0 : encode_v1 Sample.entries_data = Some sample_v1) by (vm_compute; reflexivity).
  split; [exact E0|].
  exact (v1_end_offset _ _ E0).
Defined.

Lemma v1_entry_header_witness :
  entry_v1 (hd (mk_entry [] BASE_DATE) Sample.entries_data) = Some sample_entry_v1
 
      /\ exists d ts, utf8_encode (text (hd (mk_entry [] BASE_DATE) Sample.entries_data)) = Some d
      /\ get_timestamp (date (hd (mk_entry [] BASE_DATE) Sample.entries_data)) = Some ts
      /\ le_value (slice sample_entry_v1 0x00 4) = data_len d
      /\ le_value (slice sample_entry_v1 0x04 4) = WRITTEN
      /\ slice sample_entry_v1 0x08 8 = pack_d ts
      /\ slice sample_entry_v1 0x10 8 = pack_d ts
      /\ le_value (slice sample_entry_v1 0x18 4) = crc32 d
      /\ slice sample_entry_v1 0x1C 4 = zeros 4.
Proof.
  assert (E0 : entry_v1 (hd (mk_entry [] BASE_DATE) Sample.entries_data) = Some sample_entry_v1) by (vm_compute; reflexivity).
  split; [exact E0|].
  exact (v1_entry_header _ _ E0).
Defined.

Lemma v2_header_witness :
  encode_v2 clock_a Sample.entries_data = Some sample_v2
 
      /\ exists cts, get_timestamp clock_a = Some cts
      /\ slice sample_v2 0x00 4 = SEGB
      /\ le_value (slice sample_v2 0x04 4) = Z.of_nat (length Sample.entries_data)
      /\ slice sample_v2 0x08 8 = pack_d cts
      /\ slice sample_v2 0x10 16 = zeros 16.
Proof.
  assert (E0 : encode_v2 clock_a Sample.entries_data = Some sample_v2) by (vm_compute; reflexivity).
  split; [exact E0|].
  exact (v2_header _ _ _ E0).
Defined.

Lemma v2_trailer_witness :
  encode_v2 clock_a Sample.entries_data = Some sample_v2
 
      /\ exists ps, Forall2 entry_parts Sample.entries_data ps
      /\ (16 * length Sample.entries_data <= length sample_v2)%nat
      /\ length (skipn (length sample_v2 - 16 * length Sample.entries_data) sample_v2) = (16 * length Sample.entries_data)%nat
      /\ Z.of_nat (length sample_v2 - 16 * length Sample.entries_data) = 0x20 + sum_Z (map v2_size (map snd ps))
      /\ forall i ts d, nth_error ps i = Some (ts, d) -> slice sample_v2 (length sample_v2 - 16 * length Sample.entries_data + 16 * i) 16 = le_bytes 4 (off_v2 (map snd ps) i) ++ le_bytes 4 WRITTEN ++ pack_d ts
      /\ slice sample_v2 (0x20 + Z.to_nat (off_v2 (map snd ps) i) + 8) (length d) = d.
Proof.
  assert (E0 : encode_v2 clock_a Sample.entries_data = Some sample_v2) by (vm_compute; reflexivity).
  split; [exact E0|].
  exact (v2_trailer _ _ _ E0).
Defined.

Lemma v2_trailer_offsets_witness :
  encode_v2 clock_a Sample.entries_data = Some sample_v2
 
      /\ exists datas, Forall2 (fun ed d => utf8_encode (text ed) = Some d) Sample.entries_data datas
      /\ (forall i d, nth_error datas i = Some d -> le_value (slice sample_v2 (length sample_v2 - 16 * length Sample.entries_data + 16 * i) 4) = sum_Z (map v2_size (firstn i datas))
      /\ slice sample_v2 (0x20 + Z.to_nat (sum_Z (map v2_size (firstn i datas)))) (Z.to_nat (v2_size d)) = v2_layout d)
      /\ (Sample.entries_data <> [] -> le_value (slice sample_v2 (length sample_v2 - 16 * length Sample.entries_data) 4) = 0).
Proof.
  assert (E0 : encode_v2 clock_a Sample.entries_data = Some sample_v2) by (vm_compute; reflexivity).
  split; [exact E0|].
  exact (v2_trailer_offsets _ _ _ E0).
Defined.

Lemma v2_offset_gaps_witness :
  encode_v2 clock_a Sample.entries_data = Some sample_v2
 
      /\ (forall i, (S i < length Sample.entries_data)%nat -> le_value (slice sample_v2 (length sample_v2 - 16 * length Sample.entries_data + 16 * i) 4) + 8 <= le_value (slice sample_v2 (length sample_v2 - 16 * length Sample.entries_data + 16 * S i) 4))
      /\ (forall i, S i = length Sample.entries_data -> 0x20 + le_value (slice sample_v2 (length sample_v2 - 16 * length Sample.entries_data + 16 * i) 4) + 8 <= Z.of_nat (length sample_v2 - 16 * length Sample.entries_data)).
Proof.
  assert (E0 : encode_v2 clock_a Sample.entries_data = Some sample_v2) by (vm_compute; reflexivity).
  split; [exact E0|].
  exact (v2_offset_gaps _ _ _ E0).
Defined.

Lemma clock_only_in_creation_timestamp_witness :
  run_script Sample.entries_data clock_a = Some (sample_v1, sample_v2)
      /\ run_script Sample.entries_data clock_b = Some (sample_v1, sample_v2_b)
 
      /\ sample_v1 = sample_v1
      /\ length sample_v2 = length sample_v2_b
      /\ forall i, (i < 0x08 \/ 0x10 <= i)%nat -> nth_error sample_v2 i = nth_error sample_v2_b i.
Proof.
  assert (E0 : run_script Sample.entries_data clock_a = Some (sample_v1, sample_v2)) by (vm_compute; reflexivity).
  assert (E1 : run_script Sample.entries_data clock_b = Some (sample_v1, sample_v2_b)) by (vm_compute; reflexivity).
  split; [exact E0|]. split; [exact E1|].
  exact (clock_only_in_creation_timestamp _ _ _ _ _ _ _ E0 E1).
Defined.

Lemma checksum_of_raw_data_witness :
  encode_v1 Sample.entries_data = Some sample_v1
  /\ encode_v2 clock_a Sample.entries_data = Some sample_v2
 
      /\ (exists datas, Forall2 (fun ed d => utf8_encode (text ed) = Some d) Sample.entries_data datas
      /\ forall i d, nth_error datas i = Some d -> le_value (slice sample_v1 (Z.to_nat (off_v1 datas i) + 0x18) 4) = crc32 d
      /\ slice sample_v1 (Z.to_nat (off_v1 datas i) + 0x20) (length d) = d)
 
      /\ (exists datas, Forall2 (fun ed d => utf8_encode (text ed) = Some d) Sample.entries_data datas
      /\ forall i d, nth_error datas i = Some d -> le_value (slice sample_v2 (0x20 + Z.to_nat (off_v2 datas i)) 4) = crc32 d
      /\ slice sample_v2 (0x20 + Z.to_nat (off_v2 datas i) + 8) (length d) = d).
Proof.
  assert (E0 : encode_v1 Sample.entries_data = Some sample_v1) by (vm_compute; reflexivity).
  assert (E1 : encode_v2 clock_a Sample.entries_data = Some sample_v2) by (vm_compute; reflexivity).
  split; [exact E0|]. split; [exact E1|].
  split; [exact (proj1 checksum_of_raw_data _ _ E0) | exact (proj2 checksum_of_raw_data _ _ _ E1)].
Defined.

Lemma padding_to_alignment_witness :
  entry_v1 (hd (mk_entry [] BASE_DATE) Sample.entries_data) = Some sample_entry_v1
 
      /\ entry_v2 (hd (mk_entry [] BASE_DATE) Sample.entries_data) = Some ((fst sample_entry_v2), (snd sample_entry_v2))
 
      /\ (exists d, utf8_encode (text (hd (mk_entry [] BASE_DATE) Sample.entries_data)) = Some d
      /\ firstn (Z.to_nat (0x20 + data_len d)) sample_entry_v1 ++ zeros (Z.to_nat ((8 - (0x20 + data_len d) mod 8) mod 8)) = sample_entry_v1
      /\ Z.of_nat (length sample_entry_v1) = 0x20 + data_len d + (8 - (0x20 + data_len d) mod 8) mod 8
      /\ ((0x20 + data_len d) mod 8 = 0 -> (8 - (0x20 + data_len d) mod 8) mod 8 = 0)
      /\ Z.of_nat (length sample_entry_v1) mod 8 = 0)
 
      /\ (exists d, utf8_encode (text (hd (mk_entry [] BASE_DATE) Sample.entries_data)) = Some d
      /\ firstn (Z.to_nat (8 + data_len d)) (fst sample_entry_v2) ++ zeros (Z.to_nat ((4 - (8 + data_len d) mod 4) mod 4)) = (fst sample_entry_v2)
      /\ Z.of_nat (length (fst sample_entry_v2)) = 8 + data_len d + (4 - (8 + data_len d) mod 4) mod 4
      /\ ((8 + data_len d) mod 4 = 0 -> (4 - (8 + data_len d) mod 4) mod 4 = 0)
      /\ Z.of_nat (length (fst sample_entry_v2)) mod 4 = 0).
Proof.
  assert (E0 : entry_v1 (hd (mk_entry [] BASE_DATE) Sample.entries_data) = Some sample_entry_v1) by (vm_compute; reflexivity).
  assert (E1 : entry_v2 (hd (mk_entry [] BASE_DATE) Sample.entries_data) = Some ((fst sample_entry_v2), (snd sample_entry_v2))) by (vm_compute; reflexivity).
  split; [exact E0|]. split; [exact E1|].
  split; [exact (proj1 padding_to_alignment _ _ E0) | exact (proj2 padding_to_alignment _ _ _ E1)].
Defined.

Lemma round_trip_v1_v2_exact_witness :
  encode_v1 Sample.entries_data = Some sample_v1
  /\ encode_v2 clock_a Sample.entries_data = Some sample_v2
  /\ (exists datas, Forall2 (fun ed d => utf8_encode (text ed) = Some d) Sample.entries_data datas
      /\ exists rs, decode_v1 sample_v1 = Ok rs
      /\ map r_data rs = datas
      /\ Forall (fun r => r_state r = WRITTEN /\ r_valid r = true) rs)
  /\ (exists datas, Forall2 (fun ed d => utf8_encode (text ed) = Some d) Sample.entries_data datas
      /\ exists rs, decode_v2 sample_v2 = Ok rs
      /\ Forall2 (fun r d => d = [] \/ last d x00 <> x00 ->
                             r_data r = d /\ r_valid r = true) rs datas).
Proof.
  assert (E0 : encode_v1 Sample.entries_data = Some sample_v1) by (vm_compute; reflexivity).
  assert (E1 : encode_v2 clock_a Sample.entries_data = Some sample_v2) by (vm_compute; reflexivity).
  split; [exact E0|]. split; [exact E1|].
  split; [exact (proj1 round_trip_v1_v2_exact _ _ E0)
         | exact (proj1 (proj2 round_trip_v1_v2_exact) _ _ _ E1)].
Defined.

(** * When the generator succeeds *)

Lemma entry_v1_of_parts (ed : entry) (ts : f64) (d : bytes) :
  get_timestamp (date ed) = Some ts -> utf8_encode (text ed) = Some d ->
  data_len d < 2 ^ 32 -> entry_v1 ed = Some (v1_layout ts d).
Proof.
  intros Ht Hd Hl. unfold entry_v1. rewrite Ht, Hd.
  rewrite (pack_I_ok (Z.of_nat (length d))) by (unfold data_len in Hl; lia).
  rewrite pack_i_written, crc32_mask, (pack_I_ok (crc32 d) (crc32_bound d)).
  cbv zeta. rewrite header_v1_fill. f_equal.
  unfold v1_layout, pad_len, data_len.
  rewrite !length_app, length_zeros; unfold pack_d; rewrite !length_le_bytes.
  match goal with |- context [Z.of_nat (?n + length d)] =>
    replace (Z.of_nat (n + length d)) with (0x20 + Z.of_nat (length d)) by lia end.
  rewrite <- !app_assoc. reflexivity.
Qed.

Lemma entry_v2_of_parts (ed : entry) (ts : f64) (d : bytes) :
  get_timestamp (date ed) = Some ts -> utf8_encode (text ed) = Some d ->
  entry_v2 ed = Some (v2_layout d, ts).
Proof.
  intros Ht Hd. unfold entry_v2. rewrite Ht, Hd.
  rewrite crc32_mask, (pack_I_ok (crc32 d) (crc32_bound d)).
  unfold v2_layout, pad_len, data_len.
  assert (E : Z.of_nat (length (le_bytes 4 (crc32 d) ++ zeros 4 ++ d))
              = 8 + Z.of_nat (length d))
    by (rewrite !length_app, length_le_bytes, length_zeros; lia).
  rewrite E, <- !app_assoc. reflexivity.
Qed.

Lemma entries_v1_loop_complete (eds : list entry) (ps : list (f64 * bytes)) :
  Forall2 (fun ed p => entry_parts ed p /\ data_len (snd p) < 2 ^ 32) eds ps ->
  forall acc cur, entries_v1_loop eds acc cur
    = Some (acc ++ map (fun p => v1_layout (fst p) (snd p)) ps,
            cur + sum_Z (map v1_size (map snd ps))).
Proof.
  intros H. induction H as [|ed [ts d] eds ps [[Ht Hd] Hl] _ IH]; intros acc cur.
  - rewrite entries_v1_loop_nil. cbn [map]. rewrite sum_Z_nil, app_nil_r, Z.add_0_r.
    reflexivity.
  - rewrite entries_v1_loop_cons. cbn [fst snd] in Ht, Hd, Hl.
    rewrite (entry_v1_of_parts ed ts d Ht Hd Hl), IH.
    cbn [map fst snd]. rewrite sum_Z_cons, length_v1_layout, <- app_assoc.
    f_equal. f_equal. lia.
Qed.

Lemma entries_v2_loop_complete (eds : list entry) (ps : list (f64 * bytes)) :
  Forall2 entry_parts eds ps ->
  forall acc_es acc_infos cur, entries_v2_loop eds acc_es acc_infos cur
    = Some (acc_es ++ map (fun p => v2_layout (snd p)) ps,
            acc_infos ++ trailer_infos cur ps,
            cur + sum_Z (map v2_size (map snd ps))).
Proof.
  intros H. induction H as [|ed [ts d] eds ps [Ht Hd] _ IH]; intros acc_es acc_infos cur.
  - rewrite entries_v2_loop_nil. cbn [map trailer_infos].
    rewrite sum_Z_nil, !app_nil_r, Z.add_0_r. reflexivity.
  - rewrite entries_v2_loop_cons. cbn [fst snd] in Ht, Hd.
    rewrite (entry_v2_of_parts ed ts d Ht Hd), IH.
    cbn [map trailer_infos fst snd]. rewrite sum_Z_cons, length_v2_layout, <- !app_assoc.
    rewrite Z.add_assoc. reflexivity.
Qed.

Lemma trailer_loop_complete (infos : list trailer_info) :
  Forall (fun i => 0 <= t_offset i < 2 ^ 32 /\ t_state i = WRITTEN) infos ->
  forall acc, trailer_loop infos acc = Some (acc ++ concat (map info_bytes infos)).
Proof.
  intros H. induction H as [|inf infos [Ho Hs] _ IH]; intros acc.
  - rewrite trailer_loop_nil. cbn [map concat]. rewrite app_nil_r. reflexivity.
  - rewrite trailer_loop_cons, (pack_I_ok _ Ho), Hs, pack_i_written, IH.
    cbn [map concat]. unfold info_bytes. rewrite Hs, <- !app_assoc. reflexivity.
Qed.

Lemma encode_v1_of_parts (eds : list entry) (ps : list (f64 * bytes)) :
  Forall2 (fun ed p => entry_parts ed p /\ data_len (snd p) < 2 ^ 32) eds ps ->
  0x38 + sum_Z (map v1_size (map snd ps)) < 2 ^ 32 ->
  encode_v1 eds
  = Some (le_bytes 4 (0x38 + sum_Z (map v1_size (map snd ps))) ++ zeros 48 ++ SEGB
          ++ concat (map (fun p => v1_layout (fst p) (snd p)) ps)).
Proof.
  intros Hps Hb. unfold encode_v1. rewrite (entries_v1_loop_complete eds ps Hps).
  pose proof (sum_Z_nonneg v1_size (map snd ps)) as Hn.
  assert (forall d, 0 <= v1_size d) by (intros d; pose proof (v1_size_ge d); lia).
  specialize (Hn H).
  rewrite pack_I_ok by lia. rewrite header_v1_file. reflexivity.
Qed.

Lemma encode_v2_of_parts (now : datetime) (cts : f64) (eds : list entry)
    (ps : list (f64 * bytes)) :
  get_timestamp now = Some cts -> Forall2 entry_parts eds ps ->
  Z.of_nat (length eds) < 2 ^ 32 ->
  Forall (fun i => 0 <= t_offset i < 2 ^ 32) (trailer_infos 0 ps) ->
  encode_v2 now eds
  = Some (SEGB ++ le_bytes 4 (Z.of_nat (length eds)) ++ pack_d cts ++ zeros 16
          ++ concat (map (fun p => v2_layout (snd p)) ps)
          ++ concat (map info_bytes (trailer_infos 0 ps))).
Proof.
  intros Hn Hps Hc Hoff. unfold encode_v2.
  rewrite (pack_I_ok (Z.of_nat (length eds))) by lia. rewrite Hn.
  rewrite (entries_v2_loop_complete eds ps Hps).
  rewrite trailer_loop_complete.
  - rewrite header_v2_fill. reflexivity.
  - pose proof (trailer_infos_state ps 0) as Hs. rewrite Forall_forall in *.
    intros i Hi. split; [apply Hoff | apply Hs]; exact Hi.
Qed.

Lemma data_len_le_v1_size (d : bytes) : 0 <= data_len d /\ data_len d + 0x20 <= v1_size d.
Proof.
  unfold v1_size. pose proof (pad_len_bound (0x20 + data_len d) 8 ltac:(lia)).
  unfold data_len in *. lia.
Qed.

Lemma v2_size_le_v1_size (d : bytes) : v2_size d <= v1_size d.
Proof.
  unfold v1_size, v2_size.
  pose proof (pad_len_bound (0x20 + data_len d) 8 ltac:(lia)).
  pose proof (pad_len_bound (8 + data_len d) 4 ltac:(lia)). lia.
Qed.

Lemma sum_v2_le_sum_v1 (l : list bytes) :
  sum_Z (map v2_size l) <= sum_Z (map v1_size l).
Proof.
  induction l as [|d l IH]; [reflexivity|]. cbn [map]. rewrite !sum_Z_cons.
  pose proof (v2_size_le_v1_size d). lia.
Qed.

Lemma sum_v1_ge_count (l : list bytes) :
  0x20 * Z.of_nat (length l) <= sum_Z (map v1_size l).
Proof.
  induction l as [|d l IH]; [reflexivity|]. cbn [map length]. rewrite sum_Z_cons.
  pose proof (v1_size_ge d). lia.
Qed.

Lemma v1_sizes_nonneg (l : list bytes) : 0 <= sum_Z (map v1_size l).
Proof.
  apply sum_Z_nonneg. intros d. pose proof (v1_size_ge d). lia.
Qed.

Lemma Forall2_parts_bounded (eds : list entry) (ps : list (f64 * bytes)) :
  Forall2 entry_parts eds ps ->
  0x38 + sum_Z (map v1_size (map snd ps)) < 2 ^ 32 ->
  Forall2 (fun ed p => entry_parts ed p /\ data_len (snd p) < 2 ^ 32) eds ps.
Proof.
  intros H. induction H as [|ed p eds ps Hp _ IH]; intros Hb; constructor.
  - split; [exact Hp|]. cbn [map] in Hb. rewrite sum_Z_cons in Hb.
    pose proof (data_len_le_v1_size (snd p)). pose proof (v1_sizes_nonneg (map snd ps)).
    lia.
  - apply IH. cbn [map] in Hb. rewrite sum_Z_cons in Hb.
    pose proof (v1_size_ge (snd p)). lia.
Qed.

Lemma Forall2_parts_weaken (eds : list entry) (ps : list (f64 * bytes)) :
  Forall2 (fun ed p => entry_parts ed p /\ data_len (snd p) < 2 ^ 32) eds ps ->
  Forall2 entry_parts eds ps.
Proof. intros H. induction H; constructor; tauto. Qed.

Lemma trailer_infos_offsets_fit (ps : list (f64 * bytes)) :
  Forall (fun i => 0 <= t_offset i < 2 ^ 32) (trailer_infos 0 ps)
  <-> (forall i, (i < length ps)%nat -> off_v2 (map snd ps) i < 2 ^ 32).
Proof.
  rewrite Forall_forall. split.
  - intros H i Hi. destruct (nth_error ps i) as [[ts d]|] eqn:E.
    + pose proof (nth_trailer_infos ps 0 i ts d E) as Ei.
      apply nth_error_In in Ei. apply H in Ei. cbn [t_offset] in Ei. lia.
    + apply nth_error_None in E. lia.
  - intros H inf Hin. apply In_nth_error in Hin as [i Ei].
    assert (Hi : (i < length ps)%nat).
    { rewrite <- (length_trailer_infos ps 0). apply nth_error_Some. congruence. }
    destruct (nth_error ps i) as [[ts d]|] eqn:E.
    + rewrite (nth_trailer_infos ps 0 i ts d E) in Ei. apply some_eq in Ei. subst inf.
      cbn [t_offset]. pose proof (off_v2_pos (map snd ps) i). specialize (H i Hi). lia.
    + apply nth_error_None in E. lia.
Qed.

Lemma encode_v1_of_v2_sizes (eds : list entry) (ps : list (f64 * bytes)) :
  Forall2 entry_parts eds ps ->
  0x38 + sum_Z (map v1_size (map snd ps)) < 2 ^ 32 ->
  Z.of_nat (length eds) < 2 ^ 32
  /\ Forall (fun i => 0 <= t_offset i < 2 ^ 32) (trailer_infos 0 ps).
Proof.
  intros Hps Hb. rewrite (Forall2_length Hps). split.
  - pose proof (sum_v1_ge_count (map snd ps)). rewrite length_map in *. lia.
  - apply trailer_infos_offsets_fit. intros i _.
    pose proof (off_v2_le_total (map snd ps) i).
    pose proof (sum_v2_le_sum_v1 (map snd ps)). lia.
Qed.

(** The version 1 generator returns a file exactly when every entry's date
    converts to a timestamp and its text encodes to UTF-8, and the end offset
    (the header plus the padded entries) fits in an unsigned 32-bit field. *)
Theorem encode_v1_succeeds_iff (eds : list entry) :
  (exists out, encode_v1 eds = Some out)
  <-> exists ps, Forall2 entry_parts eds ps
       /\ 0x38 + sum_Z (map v1_size (map snd ps)) < 2 ^ 32.
Proof.
  split.
  - intros [out H]. apply encode_v1_shape in H as (ps & Hps & Hb & _).
    exists ps. split; [apply Forall2_parts_weaken|]; assumption.
  - intros (ps & Hps & Hb). eexists.
    apply (encode_v1_of_parts eds ps); [apply Forall2_parts_bounded|]; assumption.
Qed.

(** The version 2 generator returns a file exactly when the clock converts
    to a timestamp, every entry converts, the entry count fits in 32 bits and
    the start offset of every entry in the data region fits in 32 bits; the
    end of the last entry is not bounded. *)
Theorem encode_v2_succeeds_iff (now : datetime) (eds : list entry) :
  (exists out, encode_v2 now eds = Some out)
  <-> exists cts ps, get_timestamp now = Some cts /\ Forall2 entry_parts eds ps
       /\ Z.of_nat (length eds) < 2 ^ 32
       /\ (forall i, (i < length eds)%nat -> off_v2 (map snd ps) i < 2 ^ 32).
Proof.
  split.
  - intros [out H]. apply encode_v2_shape in H as (cts & ps & Hn & Hps & Hc & Ho & _).
    exists cts, ps. rewrite (Forall2_length Hps).
    split; [exact Hn|]. split; [exact Hps|]. split; [rewrite <- (Forall2_length Hps); exact Hc|].
    apply trailer_infos_offsets_fit. exact Ho.
  - intros (cts & ps & Hn & Hps & Hc & Ho). eexists.
    apply (encode_v2_of_parts now cts eds ps); try assumption.
    apply trailer_infos_offsets_fit. rewrite <- (Forall2_length Hps). exact Ho.
Qed.

(** The script writes both files exactly when the version 1 file can be
    built and the clock converts: whenever version 1 succeeds, version 2
    succeeds too. *)
Theorem run_script_succeeds_iff (eds : list entry) (now : datetime) :
  (exists r, run_script eds now = Some r)
  <-> (exists out, encode_v1 eds = Some out) /\ (exists cts, get_timestamp now = Some cts).
Proof.
  split.
  - intros [[a b] H]. apply run_script_Some in H as [H1 H2]. split; [eauto|].
    apply encode_v2_shape in H2 as (cts & _ & Hn & _). eauto.
  - intros [[a Ha] [cts Hn]]. pose proof Ha as Hs.
    apply encode_v1_shape in Hs as (ps & Hps & Hb & _).
    apply Forall2_parts_weaken in Hps.
    destruct (encode_v1_of_v2_sizes eds ps Hps Hb) as [Hc Ho].
    unfold run_script. rewrite Ha, (encode_v2_of_parts now cts eds ps Hn Hps Hc Ho).
    eexists. reflexivity.
Qed.

(** * Text encoding *)

Lemma utf8_char_ok (c : Z) :
  utf8_char c <> None <-> 0 <= c < 0x110000 /\ ~ (0xD800 <= c <= 0xDFFF).
Proof.
  unfold utf8_char.
  destruct (Z.ltb_spec c 0); [split; intros Hc; [exfalso; now apply Hc | lia]|].
  destruct (Z.ltb_spec c 0x80); [split; [intros _; lia | discriminate]|].
  destruct (Z.ltb_spec c 0x800); [split; [intros _; lia | discriminate]|].
  destruct (Z.ltb_spec c 0x10000).
  - destruct (Z.leb_spec 0xD800 c), (Z.leb_spec c 0xDFFF); cbn [andb];
      split; intros Hc; try (exfalso; now apply Hc); try discriminate; lia.
  - destruct (Z.ltb_spec c 0x110000);
      split; intros Hc; try (exfalso; now apply Hc); try discriminate; lia.
Qed.

Lemma utf8_char_length (c : Z) (b : bytes) :
  utf8_char c = Some b -> (1 <= length b <= 4)%nat.
Proof.
  unfold utf8_char.
  destruct (c <? 0); [discriminate|]. destruct (c <? 0x80).
  { intros H. apply some_eq in H. subst b. cbn. lia. }
  destruct (c <? 0x800).
  { intros H. apply some_eq in H. subst b. cbn. lia. }
  destruct (c <? 0x10000).
  { destruct (_ && _); [discriminate|]. intros H. apply some_eq in H. subst b. cbn. lia. }
  destruct (c <? 0x110000); [|discriminate].
  intros H. apply some_eq in H. subst b. cbn. lia.
Qed.

Lemma utf8_encode_cons (c : Z) (s : list Z) :
  utf8_encode (c :: s) = (b <- utf8_char c ;; r <- utf8_encode s ;; Some (b ++ r)).
Proof. reflexivity. Qed.

Lemma utf8_encode_In_None (s : list Z) (c : Z) :
  In c s -> utf8_char c = None -> utf8_encode s = None.
Proof.
  induction s as [|c0 s IH]; intros Hin Hc; [destruct Hin|].
  rewrite utf8_encode_cons. destruct Hin as [<- | Hin].
  - rewrite Hc. reflexivity.
  - destruct (utf8_char c0); [|reflexivity]. rewrite (IH Hin Hc). reflexivity.
Qed.

Lemma Forall2_parts_In_text (eds : list entry) (ps : list (f64 * bytes)) (ed : entry) :
  Forall2 entry_parts eds ps -> In ed eds -> utf8_encode (text ed) <> None.
Proof.
  intros H. induction H as [|ed0 p eds ps [_ Hd] _ IH]; intros Hin; [destruct Hin|].
  destruct Hin as [<- | Hin]; [rewrite Hd; discriminate | now apply IH].
Qed.

(** [str.encode('utf-8')] succeeds exactly when every code point is a Unicode
    scalar value: in [0, 0x10FFFF] and not a surrogate. *)
Theorem utf8_encode_succeeds_iff (s : list Z) :
  utf8_encode s <> None
  <-> Forall (fun c => 0 <= c < 0x110000 /\ ~ (0xD800 <= c <= 0xDFFF)) s.
Proof.
  induction s as [|c s IH].
  - split; [constructor | discriminate].
  - rewrite utf8_encode_cons, Forall_cons_iff, <- IH, <- utf8_char_ok.
    destruct (utf8_char c), (utf8_encode s); cbn; intuition congruence.
Qed.

(** Encoding a text of [n] code points gives between [n] and [4 * n] bytes. *)
Theorem utf8_encode_length (s : list Z) (b : bytes) :
  utf8_encode s = Some b -> (length s <= length b <= 4 * length s)%nat.
Proof.
  revert b. induction s as [|c s IH]; intros b H.
  - cbn in H. apply some_eq in H. subst b. cbn. lia.
  - rewrite utf8_encode_cons in H.
    destruct (utf8_char c) as [bc|] eqn:Hc; [|discriminate].
    destruct (utf8_encode s) as [r|]; [|discriminate].
    cbn in H. apply some_eq in H. subst b.
    apply utf8_char_length in Hc. specialize (IH r eq_refl).
    rewrite length_app. cbn [length]. lia.
Qed.

(** Text made of ASCII code points is encoded one byte per code point, each
    byte being the code point itself. *)
Theorem utf8_encode_ascii (s : list Z) :
  Forall (fun c => 0 <= c < 0x80) s -> utf8_encode s = Some (map b_of_Z s).
Proof.
  intros H. induction H as [|c s Hc _ IH]; [reflexivity|].
  rewrite utf8_encode_cons, IH. unfold utf8_char.
  destruct (Z.ltb_spec c 0); [lia|]. destruct (Z.ltb_spec c 0x80); [|lia].
  reflexivity.
Qed.

(** Encoding a concatenation of texts is the concatenation of the
    encodings, and fails when either part fails. *)
Theorem utf8_encode_app (s t : list Z) :
  utf8_encode (s ++ t) = (a <- utf8_encode s ;; b <- utf8_encode t ;; Some (a ++ b)).
Proof.
  induction s as [|c s IH].
  - cbn [app utf8_encode]. destruct (utf8_encode t); reflexivity.
  - rewrite <- app_comm_cons, !utf8_encode_cons, IH.
    destruct (utf8_char c); [|reflexivity].
    destruct (utf8_encode s); [|reflexivity].
    destruct (utf8_encode t); [|reflexivity].
    cbn. rewrite app_assoc. reflexivity.
Qed.

(** If the text of any entry contains a surrogate code point, the script
    writes neither file: both generators fail. *)
Theorem surrogate_text_fails (eds : list entry) (ed : entry) (c : Z) (now : datetime) :
  In ed eds -> In c (text ed) -> 0xD800 <= c <= 0xDFFF ->
  encode_v1 eds = None /\ encode_v2 now eds = None.
Proof.
  intros Hed Hc Hs.
  assert (Hn : utf8_encode (text ed) = None).
  { apply (utf8_encode_In_None _ c Hc).
    destruct (utf8_char c) eqn:E; [|reflexivity].
    exfalso. apply (proj1 (utf8_char_ok c)); [rewrite E; discriminate | lia]. }
  split.
  - destruct (encode_v1 eds) as [out|] eqn:E; [|reflexivity]. exfalso.
    apply encode_v1_shape in E as (ps & Hps & _).
    apply Forall2_parts_weaken in Hps.
    exact (Forall2_parts_In_text eds ps ed Hps Hed Hn).
  - destruct (encode_v2 now eds) as [out|] eqn:E; [|reflexivity]. exfalso.
    apply encode_v2_shape in E as (cts & ps & _ & Hps & _).
    exact (Forall2_parts_In_text eds ps ed Hps Hed Hn).
Qed.

(** * Edge cases and composition *)

Lemma length_v1_body (ps : list (f64 * bytes)) :
  Z.of_nat (length (concat (map (fun p => v1_layout (fst p) (snd p)) ps)))
  = sum_Z (map v1_size (map snd ps)).
Proof.
  rewrite (length_concat_map _ (fun p => v1_size (snd p)) ps (fun p => length_v1_layout _ _)).
  now rewrite map_map.
Qed.

Lemma sum_Z_aligned {A} (size : A -> Z) (k : Z) (l : list A) :
  0 < k -> (forall a, size a mod k = 0) -> sum_Z (map size l) mod k = 0.
Proof.
  intros Hk H. induction l as [|a l IH]; [apply Z.mod_0_l; lia|].
  cbn [map]. rewrite sum_Z_cons, Z.add_mod, H, IH by lia. apply Z.mod_0_l. lia.
Qed.

Lemma v2_size_aligned (d : bytes) : v2_size d mod 4 = 0.
Proof. unfold v2_size. apply pad_len_aligned. lia. Qed.

(** With no entries, the version 1 file is its 56-byte header alone, with end
    offset 0x38, and the version 2 file is its 32-byte header with count 0
    and the creation timestamp, or nothing when the clock does not convert. *)
Theorem encode_no_entries (now : datetime) :
  encode_v1 [] = Some (le_bytes 4 0x38 ++ zeros 48 ++ SEGB)
  /\ encode_v2 now []
     = option_map (fun cts => SEGB ++ zeros 4 ++ pack_d cts ++ zeros 16) (get_timestamp now).
Proof.
  split.
  - unfold encode_v1. rewrite entries_v1_loop_nil, (pack_I_ok 0x38) by lia.
    rewrite header_v1_file. reflexivity.
  - unfold encode_v2. rewrite (pack_I_ok (Z.of_nat (length (@nil entry)))) by (cbn; lia).
    destruct (get_timestamp now) as [cts|]; [|reflexivity].
    rewrite entries_v2_loop_nil, trailer_loop_nil, header_v2_fill. reflexivity.
Qed.

(** Every version 1 file starts with its 56-byte header: the end offset (the
    file length) as a little-endian u32, 48 zero bytes and the magic
    ["SEGB"] at [0x34]; the entries start at [0x38], and the file length is a
    multiple of 8. *)
Theorem v1_header_layout (eds : list entry) (out : bytes) :
  encode_v1 eds = Some out ->
  firstn 0x38 out = le_bytes 4 (Z.of_nat (length out)) ++ zeros 48 ++ SEGB
  /\ (0x38 <= length out)%nat /\ Z.of_nat (length out) mod 8 = 0.
Proof.
  intros H. apply encode_v1_shape in H as (ps & _ & _ & ->).
  pose proof (length_v1_body ps) as HL.
  pose proof (sum_Z_aligned v1_size 8 (map snd ps) ltac:(lia) v1_size_aligned) as HA.
  rewrite !length_app, length_le_bytes, length_zeros. cbn [length SEGB].
  split; [|split; [lia|]].
  2: { replace (Z.of_nat (4 + (48 + (4 + length (concat (map (fun p => v1_layout (fst p) (snd p)) ps))))))
         with (7 * 8 + sum_Z (map v1_size (map snd ps))) by lia.
       rewrite Z.add_comm, Z.mod_add by lia. exact HA. }
  replace (Z.of_nat (4 + (48 + (4 + length (concat (map (fun p => v1_layout (fst p) (snd p)) ps))))))
    with (0x38 + sum_Z (map v1_size (map snd ps))) by lia.
  rewrite !app_assoc. rewrite firstn_app.
  rewrite !length_app, length_le_bytes, length_zeros. cbn [length SEGB].
  rewrite Nat.sub_diag, firstn_O, app_nil_r.
  rewrite <- (length_le_bytes 4 (0x38 + sum_Z (map v1_size (map snd ps)))) at 1.
  rewrite firstn_all2; [reflexivity|].
  rewrite !length_app, length_le_bytes, length_zeros. cbn. lia.
Qed.

(** Version 1 files compose: if the entries [eds1] and [eds2] give the files
    [o1] and [o2], and the combined end offset fits in 32 bits, then
    [eds1 ++ eds2] gives the header for that offset followed by the entry
    bytes of [o1] and then those of [o2]. *)
Theorem encode_v1_app (eds1 eds2 : list entry) (o1 o2 : bytes) :
  encode_v1 eds1 = Some o1 -> encode_v1 eds2 = Some o2 ->
  Z.of_nat (length o1 + length o2) - 0x38 < 2 ^ 32 ->
  encode_v1 (eds1 ++ eds2)
  = Some (le_bytes 4 (Z.of_nat (length o1 + length o2) - 0x38) ++ zeros 48 ++ SEGB
          ++ skipn 0x38 o1 ++ skipn 0x38 o2).
Proof.
  intros H1 H2 Hb.
  apply encode_v1_shape in H1 as (ps1 & Hps1 & Hb1 & ->).
  apply encode_v1_shape in H2 as (ps2 & Hps2 & Hb2 & ->).
  pose proof (length_v1_body ps1) as L1. pose proof (length_v1_body ps2) as L2.
  assert (Hs : forall x ps, skipn 0x38 (le_bytes 4 x ++ zeros 48 ++ SEGB
                 ++ concat (map (fun p => v1_layout (fst p) (snd p)) ps))
               = concat (map (fun p => v1_layout (fst p) (snd p)) ps)).
  { intros x ps. rewrite !app_assoc, skipn_app.
    rewrite !length_app, length_le_bytes, length_zeros. cbn [length SEGB].
    rewrite Nat.sub_diag, skipn_O, skipn_all2; [reflexivity|].
    rewrite !length_app, length_le_bytes, length_zeros. cbn. lia. }
  rewrite !Hs in *. rewrite !length_app, !length_le_bytes, !length_zeros in *.
  cbn [length SEGB] in *.
  match goal with |- _ = Some (le_bytes 4 (?x - ?y) ++ _) =>
    replace (x - y) with (0x38 + sum_Z (map v1_size (map snd (ps1 ++ ps2))))
      by (rewrite !map_app, sum_Z_app; lia) end.
  rewrite (encode_v1_of_parts (eds1 ++ eds2) (ps1 ++ ps2)).
  - rewrite !map_app, concat_app. reflexivity.
  - apply Forall2_app; assumption.
  - rewrite !map_app, sum_Z_app. lia.
Qed.

(** * Timestamps *)

Lemma ratio_quot_nonneg (a d e : Z) : 0 <= a -> 0 < d -> 0 <= ratio_quot a d e.
Proof.
  intros Ha Hd. unfold ratio_quot. destruct (Z.ltb_spec e 0).
  - apply Z.div_pos; [|lia]. pose proof (Z.pow_pos_nonneg 2 (- e)). nia.
  - apply Z.div_pos; [lia|]. pose proof (Z.pow_pos_nonneg 2 e). nia.
Qed.

Lemma ratio_quot_succ (a d e : Z) :
  0 <= a -> 0 < d -> ratio_quot a d (e + 1) = ratio_quot a d e / 2.
Proof.
  intros Ha Hd. unfold ratio_quot.
  destruct (Z.ltb_spec (e + 1) 0), (Z.ltb_spec e 0); try lia.
  - rewrite Z.div_div by lia.
    replace (- e) with (- (e + 1) + 1) by lia.
    rewrite Z.pow_add_r by lia. rewrite Z.pow_1_r, Z.mul_assoc.
    rewrite Z.div_mul_cancel_r by lia. reflexivity.
  - assert (e = -1) by lia. subst e. cbn -[Z.div].
    rewrite Z.div_div by lia. rewrite Z.mul_1_r, Z.div_mul_cancel_r by lia. reflexivity.
  - rewrite Z.div_div by (try pose proof (Z.pow_pos_nonneg 2 e); lia).
    rewrite Z.pow_add_r, Z.pow_1_r, Z.mul_assoc by lia. reflexivity.
Qed.

Lemma ratio_quot_mono (a d e k : Z) :
  0 <= a -> 0 < d -> e <= k -> ratio_quot a d k <= ratio_quot a d e.
Proof.
  intros Ha Hd Hk. replace k with (e + Z.of_nat (Z.to_nat (k - e))) by lia.
  induction (Z.to_nat (k - e)) as [|j IH].
  - rewrite Z.add_0_r. lia.
  - rewrite Nat2Z.inj_succ, <- Z.add_1_r, Z.add_assoc, ratio_quot_succ by assumption.
    pose proof (ratio_quot_nonneg a d (e + Z.of_nat j) Ha Hd).
    assert (ratio_quot a d (e + Z.of_nat j) / 2 <= ratio_quot a d (e + Z.of_nat j))
      by (apply Z.div_le_upper_bound; lia).
    lia.
Qed.

Lemma ratio_quot_start (a d : Z) :
  0 < a -> 0 < d -> ratio_quot a d (Z.log2 a - Z.log2 d - 53) < 2 ^ 54.
Proof.
  intros Ha Hd. destruct (Z.log2_spec a Ha) as [Ha1 Ha2].
  destruct (Z.log2_spec d Hd) as [Hd1 Hd2].
  pose proof (Z.log2_nonneg a). pose proof (Z.log2_nonneg d).
  set (la := Z.log2 a) in *. set (ld := Z.log2 d) in *.
  unfold ratio_quot. set (e := la - ld - 53).
  destruct (Z.ltb_spec e 0).
  - apply Z.div_lt_upper_bound; [lia|].
    assert (E : 2 ^ Z.succ la * 2 ^ (- e) = 2 ^ ld * 2 ^ 54)
      by (rewrite <- !Z.pow_add_r by lia; f_equal; lia).
    pose proof (Z.pow_pos_nonneg 2 (- e)). nia.
  - apply Z.div_lt_upper_bound; [pose proof (Z.pow_pos_nonneg 2 e); nia|].
    assert (E : 2 ^ ld * 2 ^ e * 2 ^ 54 = 2 ^ Z.succ la)
      by (rewrite <- !Z.pow_add_r by lia; f_equal; lia).
    pose proof (Z.pow_pos_nonneg 2 e). nia.
Qed.

Lemma f64_of_ratio_shape (n d : Z) : 0 < d -> n <> 0 ->
  exists m e', 0 <= m < 2 ^ 53
  /\ -1074 <= e' <= Z.max (Z.log2 (Z.abs n) - Z.log2 d - 52) (-1074) + 1
  /\ f64_of_ratio n d
     = if m <? 2 ^ 52 then Some ((if n <? 0 then 2 ^ 63 else 0) + m)
       else if 2047 <=? e' + 1075 then None
       else Some ((if n <? 0 then 2 ^ 63 else 0) + (e' + 1075) * 2 ^ 52 + (m - 2 ^ 52)).
Proof.
  intros Hd Hn. unfold f64_of_ratio. rewrite (proj2 (Z.eqb_neq n 0) Hn). cbv beta zeta.
  set (a := Z.abs n). set (sgn := if n <? 0 then 2 ^ 63 else 0).
  assert (Ha : 0 < a) by (unfold a; lia).
  set (e0 := Z.log2 a - Z.log2 d - 53).
  change ((if e0 <? 0 then a * 2 ^ (- e0) else a) / (if e0 <? 0 then d else d * 2 ^ e0))
    with (ratio_quot a d e0).
  set (e1 := if 2 ^ 53 <=? ratio_quot a d e0 then e0 + 1 else e0).
  set (e := Z.max e1 (-1074)).
  change ((if e <? 0 then a * 2 ^ (- e) else a) / (if e <? 0 then d else d * 2 ^ e))
    with (ratio_quot a d e).
  set (D := if e <? 0 then d else d * 2 ^ e).
  set (r := (if e <? 0 then a * 2 ^ (- e) else a) mod D).
  set (q := ratio_quot a d e).
  set (q' := if (D <? 2 * r) || ((2 * r =? D) && Z.odd q) then q + 1 else q).
  assert (He1 : ratio_quot a d e1 < 2 ^ 53 /\ e0 <= e1 <= e0 + 1).
  { pose proof (ratio_quot_start a d Ha Hd) as H0. fold e0 in H0.
    unfold e1. destruct (Z.leb_spec (2 ^ 53) (ratio_quot a d e0)).
    - rewrite ratio_quot_succ by lia. split; [|lia].
      apply Z.div_lt_upper_bound; lia.
    - lia. }
  assert (Hq : 0 <= q < 2 ^ 53).
  { unfold q. split; [apply ratio_quot_nonneg; lia|].
    pose proof (ratio_quot_mono a d e1 e ltac:(lia) Hd ltac:(unfold e; lia)). lia. }
  assert (Hq' : q <= q' <= q + 1)
    by (unfold q'; destruct (_ || _); lia).
  clearbody q' q r D.
  destruct (Z.eqb_spec q' (2 ^ 53)).
  - exists (2 ^ 52), (e + 1). split; [lia|]. split; [unfold e, e0; lia|]. reflexivity.
  - exists q', e. split; [lia|]. split; [unfold e, e0; lia|]. reflexivity.
Qed.

Lemma f64_of_ratio_range (n d x : Z) :
  0 < d -> f64_of_ratio n d = Some x -> 0 <= x < 2 ^ 64 /\ (2 ^ 63 <= x <-> n < 0).
Proof.
  intros Hd H. destruct (Z.eq_dec n 0) as [->|Hn].
  - unfold f64_of_ratio in H. cbn in H. apply some_eq in H. subst x. lia.
  - destruct (f64_of_ratio_shape n d Hd Hn) as (m & e' & Hm & He & E).
    rewrite E in H.
    destruct (Z.ltb_spec m (2 ^ 52)); [|destruct (Z.leb_spec 2047 (e' + 1075)); [discriminate|]];
      apply some_eq in H; subst x; destruct (Z.ltb_spec n 0); lia.
Qed.

Lemma f64_of_ratio_total (n d : Z) :
  0 < d -> Z.abs n < 2 ^ 1000 -> f64_of_ratio n d <> None.
Proof.
  intros Hd Hb. destruct (Z.eq_dec n 0) as [->|Hn]; [discriminate|].
  destruct (f64_of_ratio_shape n d Hd Hn) as (m & e' & Hm & He & E).
  rewrite E.
  assert (Hl : Z.log2 (Z.abs n) < 1000) by (apply Z.log2_lt_pow2; lia).
  pose proof (Z.log2_nonneg d).
  destruct (m <? 2 ^ 52); [discriminate|].
  destruct (Z.leb_spec 2047 (e' + 1075)); [lia | discriminate].
Qed.

Lemma to_microseconds_BASE_DATE : to_microseconds BASE_DATE = 63113990400000000.
Proof. vm_compute. reflexivity. Qed.

Lemma days_before_month_bound (y m : Z) : -1 <= days_before_month y m <= 335.
Proof.
  unfold days_before_month.
  destruct (nth_in_or_default (Z.to_nat m) DAYS_BEFORE_MONTH 0) as [Hin | E].
  - set (v := nth (Z.to_nat m) DAYS_BEFORE_MONTH 0) in *.
    clearbody v. unfold DAYS_BEFORE_MONTH in Hin. cbn in Hin.
    destruct (_ && _); intuition lia.
  - rewrite E. destruct (_ && _); lia.
Qed.

Lemma to_microseconds_bound (dt : datetime) :
  in_datetime_range dt = true -> 0 <= to_microseconds dt < 2 ^ 60.
Proof.
  intros H. unfold in_datetime_range in H. rewrite !andb_true_iff, !Z.leb_le in H.
  pose proof (days_before_month_bound (year dt) (month dt)).
  unfold to_microseconds, ymd2ord, days_before_year. Z.div_mod_to_equations. lia.
Qed.

(** [get_timestamp] never raises on a datetime in the constructor's range:
    the seconds since 2001 always convert to a float. *)
Theorem get_timestamp_total (dt : datetime) :
  in_datetime_range dt = true -> get_timestamp dt <> None.
Proof.
  intros H. pose proof (to_microseconds_bound dt H). unfold get_timestamp.
  apply f64_of_ratio_total; [lia|]. rewrite to_microseconds_BASE_DATE. lia.
Qed.

(** The stored timestamp is a 64-bit pattern whose sign bit is set exactly
    when the date is before 2001-01-01T00:00:00 UTC; an instant equal to the
    epoch gives +0.0. *)
Theorem get_timestamp_sign (dt : datetime) (x : f64) :
  get_timestamp dt = Some x ->
  0 <= x < 2 ^ 64 /\ (2 ^ 63 <= x <-> to_microseconds dt < to_microseconds BASE_DATE)
  /\ (to_microseconds dt = to_microseconds BASE_DATE -> x = 0).
Proof.
  unfold get_timestamp. intros H.
  destruct (f64_of_ratio_range _ 1000000 x ltac:(lia) H) as [Hx Hs].
  split; [exact Hx|]. split; [rewrite Hs; split; intros; lia|].
  intros E. rewrite E, Z.sub_diag in H. unfold f64_of_ratio in H. cbn in H.
  apply some_eq in H. symmetry. exact H.
Qed.

(** * Splitting the input *)

Lemma off_v2_app_l (l1 l2 : list bytes) (i : nat) :
  (i <= length l1)%nat -> off_v2 (l1 ++ l2) i = off_v2 l1 i.
Proof.
  intros Hi. unfold off_v2. rewrite firstn_app.
  replace (i - length l1)%nat with 0%nat by lia. rewrite firstn_O, app_nil_r. reflexivity.
Qed.

Lemma off_v2_app_r (l1 l2 : list bytes) (i : nat) :
  off_v2 (l1 ++ l2) (length l1 + i) = sum_Z (map v2_size l1) + off_v2 l2 i.
Proof.
  unfold off_v2. rewrite firstn_app, firstn_all2 by lia.
  replace (length l1 + i - length l1)%nat with i by lia.
  rewrite map_app, sum_Z_app. reflexivity.
Qed.

Lemma v2_sizes_nonneg (l : list bytes) : 0 <= sum_Z (map v2_size l).
Proof. apply sum_Z_nonneg. intros d. pose proof (v2_size_ge d). lia. Qed.

(** A concatenation of inputs that the version 1 generator accepts is split
    back: both parts are accepted, and the combined file is as long as the
    two part files less one 56-byte header. *)
Theorem encode_v1_app_split (eds1 eds2 : list entry) (o : bytes) :
  encode_v1 (eds1 ++ eds2) = Some o ->
  exists o1 o2, encode_v1 eds1 = Some o1 /\ encode_v1 eds2 = Some o2
    /\ Z.of_nat (length o) = Z.of_nat (length o1 + length o2) - 0x38.
Proof.
  intros H. apply encode_v1_shape in H as (ps & Hps & Hb & ->).
  apply Forall2_app_inv_l in Hps as (ps1 & ps2 & Hp1 & Hp2 & ->).
  rewrite !map_app, sum_Z_app in Hb.
  pose proof (v1_sizes_nonneg (map snd ps1)). pose proof (v1_sizes_nonneg (map snd ps2)).
  exists (le_bytes 4 (0x38 + sum_Z (map v1_size (map snd ps1))) ++ zeros 48 ++ SEGB
          ++ concat (map (fun p => v1_layout (fst p) (snd p)) ps1)).
  exists (le_bytes 4 (0x38 + sum_Z (map v1_size (map snd ps2))) ++ zeros 48 ++ SEGB
          ++ concat (map (fun p => v1_layout (fst p) (snd p)) ps2)).
  split; [apply encode_v1_of_parts; [exact Hp1 | lia]|].
  split; [apply encode_v1_of_parts; [exact Hp2 | lia]|].
  pose proof (length_v1_body (ps1 ++ ps2)). pose proof (length_v1_body ps1).
  pose proof (length_v1_body ps2).
  rewrite !length_app, !length_le_bytes, !length_zeros in *. cbn [length SEGB].
  rewrite !map_app, sum_Z_app in *. lia.
Qed.

(** If the version 2 generator accepts a concatenation of inputs, it accepts
    each part on its own with the same clock. *)
Theorem encode_v2_app_parts (now : datetime) (eds1 eds2 : list entry) (o : bytes) :
  encode_v2 now (eds1 ++ eds2) = Some o ->
  (exists o1, encode_v2 now eds1 = Some o1) /\ (exists o2, encode_v2 now eds2 = Some o2).
Proof.
  intros H. apply encode_v2_shape in H as (cts & ps & Hn & Hps & Hc & Ho & _).
  apply Forall2_app_inv_l in Hps as (ps1 & ps2 & Hp1 & Hp2 & ->).
  rewrite trailer_infos_offsets_fit in Ho. rewrite length_app in Hc, Ho.
  pose proof (Forall2_length Hp1) as L1. pose proof (Forall2_length Hp2) as L2.
  rewrite !map_app in Ho.
  split; eexists; apply (encode_v2_of_parts now cts); try eassumption; try lia.
  - apply trailer_infos_offsets_fit. intros i Hi.
    specialize (Ho i ltac:(lia)).
    rewrite off_v2_app_l in Ho by (rewrite length_map; lia). exact Ho.
  - apply trailer_infos_offsets_fit. intros i Hi.
    specialize (Ho (length ps1 + i)%nat ltac:(lia)).
    replace (length ps1) with (length (map snd ps1)) in Ho by apply length_map.
    rewrite off_v2_app_r in Ho. pose proof (v2_sizes_nonneg (map snd ps1)). lia.
Qed.

(** A version 2 file is its 32-byte header, the padded entries and 16 bytes
    of trailer per entry; its length is a multiple of 4. *)
Theorem v2_file_length (now : datetime) (eds : list entry) (out : bytes) :
  encode_v2 now eds = Some out ->
  exists datas, Forall2 (fun ed d => utf8_encode (text ed) = Some d) eds datas
    /\ Z.of_nat (length out) = 0x20 + sum_Z (map v2_size datas) + 16 * Z.of_nat (length eds)
    /\ Z.of_nat (length out) mod 4 = 0.
Proof.
  intros H. apply encode_v2_shape in H as (cts & ps & _ & Hps & _ & _ & ->).
  exists (map snd ps). split.
  { revert Hps. apply Forall2_texts. intros ed p [_ Hd]. exact Hd. }
  pose proof (length_concat_map (fun p => v2_layout (snd p)) (fun p => v2_size (snd p)) ps
    (fun p => length_v2_layout _)) as HL.
  rewrite <- (map_map snd v2_size) in HL.
  pose proof (sum_Z_aligned v2_size 4 (map snd ps) ltac:(lia) v2_size_aligned) as HA.
  assert (E : Z.of_nat (length (SEGB ++ le_bytes 4 (Z.of_nat (length eds)) ++ pack_d cts
              ++ zeros 16 ++ concat (map (fun p => v2_layout (snd p)) ps)
              ++ concat (map info_bytes (trailer_infos 0 ps))))
            = 0x20 + sum_Z (map v2_size (map snd ps)) + 16 * Z.of_nat (length eds)).
  { unfold pack_d. rewrite !length_app, !length_le_bytes, length_zeros, length_trailer,
      length_trailer_infos, <- (Forall2_length Hps). cbn [length SEGB]. lia. }
  rewrite E. split; [reflexivity|].
  replace (0x20 + sum_Z (map v2_size (map snd ps)) + 16 * Z.of_nat (length eds))
    with (sum_Z (map v2_size (map snd ps)) + (8 + 4 * Z.of_nat (length eds)) * 4) by lia.
  rewrite Z.mod_add by lia. exact HA.
Qed.

(** * Instances of the properties above *)

Lemma encode_v1_succeeds_iff_witness :
  encode_v1 Sample.entries_data = Some sample_v1
  /\ exists ps, Forall2 entry_parts Sample.entries_data ps
       /\ 0x38 + sum_Z (map v1_size (map snd ps)) < 2 ^ 32.
Proof.
  assert (E0 : encode_v1 Sample.entries_data = Some sample_v1) by (vm_compute; reflexivity).
  split; [exact E0|].
  apply (proj1 (encode_v1_succeeds_iff Sample.entries_data)). exists sample_v1. exact E0.
Defined.

Lemma encode_v2_succeeds_iff_witness :
  encode_v2 clock_a Sample.entries_data = Some sample_v2
  /\ exists cts ps, get_timestamp clock_a = Some cts
       /\ Forall2 entry_parts Sample.entries_data ps
       /\ Z.of_nat (length Sample.entries_data) < 2 ^ 32
       /\ (forall i, (i < length Sample.entries_data)%nat -> off_v2 (map snd ps) i < 2 ^ 32).
Proof.
  assert (E0 : encode_v2 clock_a Sample.entries_data = Some sample_v2)
    by (vm_compute; reflexivity).
  split; [exact E0|].
  apply (proj1 (encode_v2_succeeds_iff clock_a Sample.entries_data)).
  exists sample_v2. exact E0.
Defined.

Lemma run_script_succeeds_iff_witness :
  run_script Sample.entries_data clock_a = Some (sample_v1, sample_v2)
  /\ (exists out, encode_v1 Sample.entries_data = Some out)
  /\ (exists cts, get_timestamp clock_a = Some cts).
Proof.
  assert (E0 : run_script Sample.entries_data clock_a = Some (sample_v1, sample_v2))
    by (vm_compute; reflexivity).
  split; [exact E0|].
  apply (proj1 (run_script_succeeds_iff Sample.entries_data clock_a)).
  exists (sample_v1, sample_v2). exact E0.
Defined.

Lemma utf8_encode_succeeds_iff_witness :
  utf8_encode (text surrogate_entry) = None
  /\ ~ Forall (fun c => 0 <= c < 0x110000 /\ ~ (0xD800 <= c <= 0xDFFF)) (text surrogate_entry).
Proof.
  assert (E0 : utf8_encode (text surrogate_entry) = None) by (vm_compute; reflexivity).
  split; [exact E0|].
  intros HF. apply (proj2 (utf8_encode_succeeds_iff (text surrogate_entry))) in HF.
  exact (HF E0).
Defined.

Lemma utf8_encode_length_witness :
  utf8_encode sample_text = Some sample_text_utf8
  /\ (length sample_text <= length sample_text_utf8 <= 4 * length sample_text)%nat.
Proof.
  assert (E0 : utf8_encode sample_text = Some sample_text_utf8) by (vm_compute; reflexivity).
  split; [exact E0|].
  exact (utf8_encode_length _ _ E0).
Defined.

Lemma utf8_encode_ascii_witness :
  Forall (fun c => 0 <= c < 0x80) collision_text_a
  /\ utf8_encode collision_text_a = Some (map b_of_Z collision_text_a).
Proof.
  assert (H0 : Forall (fun c => 0 <= c < 0x80) collision_text_a).
  { unfold collision_text_a. repeat (apply Forall_cons; [lia|]). apply Forall_nil. }
  split; [exact H0|].
  exact (utf8_encode_ascii _ H0).
Defined.

Lemma surrogate_text_fails_witness :
  In surrogate_entry [surrogate_entry] /\ In 0xD800 (text surrogate_entry)
  /\ encode_v1 [surrogate_entry] = None /\ encode_v2 clock_a [surrogate_entry] = None.
Proof.
  assert (H1 : In surrogate_entry [surrogate_entry]) by (left; reflexivity).
  assert (H2 : In 0xD800 (text surrogate_entry)) by (right; left; reflexivity).
  split; [exact H1|]. split; [exact H2|].
  exact (surrogate_text_fails _ _ _ clock_a H1 H2 ltac:(lia)).
Defined.

Lemma v1_header_layout_witness :
  encode_v1 Sample.entries_data = Some sample_v1
  /\ firstn 0x38 sample_v1 = le_bytes 4 (Z.of_nat (length sample_v1)) ++ zeros 48 ++ SEGB
  /\ (0x38 <= length sample_v1)%nat /\ Z.of_nat (length sample_v1) mod 8 = 0.
Proof.
  assert (E0 : encode_v1 Sample.entries_data = Some sample_v1) by (vm_compute; reflexivity).
  split; [exact E0|].
  exact (v1_header_layout _ _ E0).
Defined.

Lemma encode_v1_app_witness :
  encode_v1 Sample.entries_data = Some sample_v1 /\ encode_v1 collision_a = Some collision_a_v1
  /\ encode_v1 (Sample.entries_data ++ collision_a)
     = Some (le_bytes 4 (Z.of_nat (length sample_v1 + length collision_a_v1) - 0x38)
             ++ zeros 48 ++ SEGB ++ skipn 0x38 sample_v1 ++ skipn 0x38 collision_a_v1).
Proof.
  assert (E1 : encode_v1 Sample.entries_data = Some sample_v1) by (vm_compute; reflexivity).
  assert (E2 : encode_v1 collision_a = Some collision_a_v1) by (vm_compute; reflexivity).
  split; [exact E1|]. split; [exact E2|].
  exact (encode_v1_app _ _ _ _ E1 E2 ltac:(vm_compute; reflexivity)).
Defined.

Lemma encode_v1_app_split_witness :
  encode_v1 (Sample.entries_data ++ collision_a) = Some joined_v1
  /\ exists o1 o2, encode_v1 Sample.entries_data = Some o1 /\ encode_v1 collision_a = Some o2
       /\ Z.of_nat (length joined_v1) = Z.of_nat (length o1 + length o2) - 0x38.
Proof.
  assert (E0 : encode_v1 (Sample.entries_data ++ collision_a) = Some joined_v1)
    by (vm_compute; reflexivity).
  split; [exact E0|].
  exact (encode_v1_app_split _ _ _ E0).
Defined.

Lemma encode_v2_app_parts_witness :
  encode_v2 clock_a (Sample.entries_data ++ collision_a) = Some joined_v2
  /\ (exists o1, encode_v2 clock_a Sample.entries_data = Some o1)
  /\ (exists o2, encode_v2 clock_a collision_a = Some o2).
Proof.
  assert (E0 : encode_v2 clock_a (Sample.entries_data ++ collision_a) = Some joined_v2)
    by (vm_compute; reflexivity).
  split; [exact E0|].
  exact (encode_v2_app_parts _ _ _ _ E0).
Defined.

Lemma v2_file_length_witness :
  encode_v2 clock_a Sample.entries_data = Some sample_v2
  /\ exists datas, Forall2 (fun ed d => utf8_encode (text ed) = Some d) Sample.entries_data datas
       /\ Z.of_nat (length sample_v2)
          = 0x20 + sum_Z (map v2_size datas) + 16 * Z.of_nat (length Sample.entries_data)
       /\ Z.of_nat (length sample_v2) mod 4 = 0.
Proof.
  assert (E0 : encode_v2 clock_a Sample.entries_data = Some sample_v2)
    by (vm_compute; reflexivity).
  split; [exact E0|].
  exact (v2_file_length _ _ _ E0).
Defined.

Lemma get_timestamp_total_witness :
  in_datetime_range clock_a = true /\ get_timestamp clock_a <> None.
Proof.
  assert (H0 : in_datetime_range clock_a = true) by (vm_compute; reflexivity).
  split; [exact H0|].
  exact (get_timestamp_total _ H0).
Defined.

Lemma get_timestamp_sign_witness :
  get_timestamp pre_epoch = Some 13826050856027422720
  /\ 0 <= 13826050856027422720 < 2 ^ 64
  /\ (2 ^ 63 <= 13826050856027422720
      <-> to_microseconds pre_epoch < to_microseconds BASE_DATE)
  /\ (to_microseconds pre_epoch = to_microseconds BASE_DATE -> 13826050856027422720 = 0).
Proof.
  assert (E0 : get_timestamp pre_epoch = Some 13826050856027422720)
    by (vm_compute; reflexivity).
  split; [exact E0|].
  exact (get_timestamp_sign _ _ E0).
Defined.
